(** * AudioData: the interleaved sample buffer of libKeyFinder

    A shallow embedding of [src/audiodata.cpp] and the properties of its
    operations.

    Conventions of the embedding.
    - [unsigned int] is a [Z] in [0, 2^32); every arithmetic operation the
      source performs on it is followed by its wrap-around ([UInt.wrap]).
    - [float] is IEEE 754 binary32, as the Standard Library's executable
      specification [spec_float] at precision 24 and maximal exponent 128,
      rounding to nearest even.
    - [std::deque<float>] is a [list] of floats; an iterator is its offset
      from [begin()]. An iterator can be moved anywhere from [begin()] to
      [end()]; moving it further, and reading or writing through an iterator
      outside [0, size), has no defined behaviour and is the outcome
      [Undefined].
    - A member function is a computation of the monad [M]: it receives the
      object and ends in a return value with the object's new state, in a
      thrown [Exception] with the state the object has at the throw, in
      [Undefined], or in [OutOfFuel] when a [while] loop was still running
      after the number of iterations it was given. *)

From Stdlib Require Import ZArith Lia Bool SpecFloat String DecimalString.
From stdpp Require Import base list.

Local Open Scope Z_scope.

(** ** Unsigned 32-bit integers *)

Module UInt.

Definition modulus : Z := 2 ^ 32.

Definition wrap (z : Z) : Z := z mod modulus.

Definition add (x y : Z) : Z := wrap (x + y).
Definition sub (x y : Z) : Z := wrap (x - y).
Definition mul (x y : Z) : Z := wrap (x * y).

(** Division by zero has no defined behaviour. *)
Definition div (x y : Z) : option Z :=
  if y =? 0 then None else Some (x / y).

End UInt.

(** ** Single-precision floats *)

Module F32.

Definition prec : Z := 24.
Definition emax : Z := 128.

Definition zero : spec_float := S754_zero false.

Definition add : spec_float -> spec_float -> spec_float := SFadd prec emax.
Definition div : spec_float -> spec_float -> spec_float := SFdiv prec emax.

(** The conversion [(float) n] of an unsigned integer. *)
Definition of_uint (n : Z) : spec_float := binary_normalize prec emax n 0 false.

(** [boost::math::isfinite] *)
Definition isfinite (x : spec_float) : bool :=
  match x with
  | S754_zero _ | S754_finite _ _ _ => true
  | S754_infinity _ | S754_nan => false
  end.

(** The integer [ceil x] of a finite [x]. *)
Definition ceil (x : spec_float) : option Z :=
  match x with
  | S754_zero _ => Some 0
  | S754_finite s m e =>
      let n := cond_Zopp s (Z.pos m) in
      Some (if 0 <=? e then n * 2 ^ e else - ((- n) / 2 ^ (- e)))
  | S754_infinity _ | S754_nan => None
  end.

(** The conversion of [ceil x] to [size_t] (64 bits), which is defined
    only when the value fits. *)
Definition ceil_to_size (x : spec_float) : option Z :=
  match ceil x with
  | Some n => if (0 <=? n) && (n <? 2 ^ 64) then Some n else None
  | None => None
  end.


End F32.

Abbreviation float := spec_float.

(** ** The deque of samples *)

Definition size (s : list float) : Z := Z.of_nat (length s).

(** [*it] for the iterator at offset [i] *)
Definition deref (s : list float) (i : Z) : option float :=
  if (0 <=? i) && (i <? size s) then s !! Z.to_nat i else None.

(** [*it = v] for the iterator at offset [i] *)
Definition store (s : list float) (i : Z) (v : float) : option (list float) :=
  if (0 <=? i) && (i <? size s) then Some (<[Z.to_nat i := v]> s) else None.

(** [s.resize(n, v)] *)
Definition resize (n : Z) (v : float) (s : list float) : list float :=
  take (Z.to_nat n) s ++ replicate (Z.to_nat n - length s)%nat v.

(** [std::advance(it, n)] for the iterator at offset [i]: the iterator it
    gives has to be one of the deque, from [begin()] to [end()]. *)
Definition advance (s : list float) (i n : Z) : option Z :=
  if (0 <=? i + n) && (i + n <=? size s) then Some (i + n) else None.

(** [s.erase(s.begin(), s.begin() + n)] *)
Definition erase_front (n : Z) (s : list float) : option (list float) :=
  if (0 <=? n) && (n <=? size s) then Some (drop (Z.to_nat n) s) else None.

(** ** Exceptions

    The source has one exception class, constructed from a message. The
    constructors below are its throw sites, with the numbers the message
    is formatted from. *)

Inductive Exception : Type :=
| NewChannelCountZero
| NewFrameRateZero
| AppendChannels
| AppendFrameRate
| PrependChannels
| PrependFrameRate
| GetSampleBounds (index count : Z)
| GetFrameBounds (frame count : Z)
| GetChannelBounds (channel count : Z)
| SetSampleBounds (index count : Z)
| SetSampleNaN
| SetFrameBounds (frame count : Z)
| SetChannelBounds (channel count : Z)
| ChannelsZero
| MonophonicOnly
| DiscardBounds (discard count : Z)
| SliceBounds (slice count : Z).

Definition decimal (z : Z) : string := NilZero.string_of_uint (N.to_uint (Z.to_N z)).

Definition ratio (a b : Z) : string :=
  ("(" ++ decimal a ++ "/" ++ decimal b ++ ")")%string.

Definition what (e : Exception) : string :=
  match e with
  | NewChannelCountZero => "New channel count must be > 0"
  | NewFrameRateZero => "New frame rate must be > 0"
  | AppendChannels => "Cannot append audio data with a different number of channels"
  | AppendFrameRate => "Cannot append audio data with a different frame rate"
  | PrependChannels => "Cannot prepend audio data with a different number of channels"
  | PrependFrameRate => "Cannot prepend audio data with a different frame rate"
  | GetSampleBounds i n => "Cannot get out-of-bounds sample " ++ ratio i n
  | GetFrameBounds f n => "Cannot get out-of-bounds frame " ++ ratio f n
  | GetChannelBounds c n => "Cannot get out-of-bounds channel " ++ ratio c n
  | SetSampleBounds i n => "Cannot set out-of-bounds sample " ++ ratio i n
  | SetSampleNaN => "Cannot set sample to NaN"
  | SetFrameBounds f n => "Cannot set out-of-bounds frame " ++ ratio f n
  | SetChannelBounds c n => "Cannot set out-of-bounds channel " ++ ratio c n
  | ChannelsZero => "Channels must be > 0"
  | MonophonicOnly => "Apply to monophonic only"
  | DiscardBounds d n => "Cannot discard " ++ decimal d ++ " frames of " ++ decimal n
  | SliceBounds k n => "Cannot slice " ++ decimal k ++ " samples of " ++ decimal n
  end%string.

(** The classes of failure the specification distinguishes, and the class
    of each throw site. *)
Inductive ErrorKind : Type :=
| InvalidConfiguration
| IncompatibleMerge
| IncompatibleChannelLayout
| OutOfBounds
| NonFiniteValue.

Definition kind (e : Exception) : ErrorKind :=
  match e with
  | NewChannelCountZero | NewFrameRateZero | ChannelsZero => InvalidConfiguration
  | AppendChannels | AppendFrameRate | PrependChannels | PrependFrameRate =>
      IncompatibleMerge
  | MonophonicOnly => IncompatibleChannelLayout
  | GetSampleBounds _ _ | GetFrameBounds _ _ | GetChannelBounds _ _
  | SetSampleBounds _ _ | SetFrameBounds _ _ | SetChannelBounds _ _
  | DiscardBounds _ _ | SliceBounds _ _ => OutOfBounds
  | SetSampleNaN => NonFiniteValue
  end.

(** ** The object

    [readIterator] and [writeIterator] are offsets into [samples]. A change
    of the deque's length leaves the offsets as they are: the invalidation
    of a deque iterator by [insert], [erase] and [resize] is not modelled.
    Nor is the state of the two iterators of a new object, which the
    constructor does not set: they stand here at offset 0, where
    [resetIterators] puts them, although in the source they belong to no
    deque before the first [resetIterators]. *)

Record AudioData : Type := mkAudioData {
  samples : list float;
  channels : Z;
  frameRate : Z;
  readIterator : Z;
  writeIterator : Z
}.

Definition set_samples (s : list float) (a : AudioData) : AudioData :=
  mkAudioData s (channels a) (frameRate a) (readIterator a) (writeIterator a).
Definition set_channels (c : Z) (a : AudioData) : AudioData :=
  mkAudioData (samples a) c (frameRate a) (readIterator a) (writeIterator a).
Definition set_frameRate (r : Z) (a : AudioData) : AudioData :=
  mkAudioData (samples a) (channels a) r (readIterator a) (writeIterator a).
Definition set_readIterator (i : Z) (a : AudioData) : AudioData :=
  mkAudioData (samples a) (channels a) (frameRate a) i (writeIterator a).
Definition set_writeIterator (i : Z) (a : AudioData) : AudioData :=
  mkAudioData (samples a) (channels a) (frameRate a) (readIterator a) i.

(** [AudioData::AudioData()] *)
Definition empty : AudioData := mkAudioData [] 0 0 0 0.

(** ** The monad of member functions *)

Inductive outcome (A : Type) : Type :=
| Ret (v : A) (a : AudioData)
| Throw (e : Exception) (a : AudioData)
| Undefined
| OutOfFuel.

Arguments Ret {A} v a.
Arguments Throw {A} e a.
Arguments Undefined {A}.
Arguments OutOfFuel {A}.

Definition M (A : Type) : Type := AudioData -> outcome A.

Definition ret {A} (v : A) : M A := fun a => Ret v a.

Definition bind {A B} (m : M A) (k : A -> M B) : M B := fun a =>
  match m a with
  | Ret v a' => k v a'
  | Throw e a' => Throw e a'
  | Undefined => Undefined
  | OutOfFuel => OutOfFuel
  end.

Definition throw {A} (e : Exception) : M A := fun a => Throw e a.
Definition undefined {A} : M A := fun _ => Undefined.
Definition gets {A} (f : AudioData -> A) : M A := fun a => Ret (f a) a.
Definition modify (f : AudioData -> AudioData) : M unit := fun a => Ret tt (f a).

(** A value that exists only where the behaviour is defined. *)
Definition defined {A} (o : option A) : M A :=
  match o with
  | Some v => ret v
  | None => undefined
  end.

Notation "'let*' x ':=' m 'in' k" := (bind m (fun x => k))
  (at level 10, x name, m at level 100, k at level 200).
Notation "m '>>' k" := (bind m (fun _ => k))
  (at level 100, k at level 200, right associativity).

(** A call [that->f(...)] on another object: its exception propagates
    through the caller, whose own state stays as it is. *)
Definition on {A} (that : AudioData) (m : M A) : M (A * AudioData) := fun a =>
  match m that with
  | Ret v that' => Ret (v, that') a
  | Throw e _ => Throw e a
  | Undefined => Undefined
  | OutOfFuel => OutOfFuel
  end.

(** ** Loops *)

Inductive loop_result (S : Type) : Type :=
| Finished (s : S)
| Stuck
| Running.

Arguments Finished {S} s.
Arguments Stuck {S}.
Arguments Running {S}.

(** [while (cond) body], for at most [fuel] iterations. [body] is [None]
    where an iteration has no defined behaviour. *)
Fixpoint while {S : Type} (fuel : nat) (cond : S -> bool) (body : S -> option S)
    (s : S) {struct fuel} : loop_result S :=
  if cond s then
    match fuel with
    | O => Running
    | Datatypes.S fuel' =>
        match body s with
        | Some s' => while fuel' cond body s'
        | None => Stuck
        end
    end
  else Finished s.

Definition of_loop {S} (r : loop_result S) : M S :=
  match r with
  | Finished s => ret s
  | Stuck => undefined
  | Running => fun _ => OutOfFuel
  end.

(** ** Member functions *)

Definition getChannels : M Z := gets channels.

Definition setChannels (newChannels : Z) : M unit :=
  if newChannels <? 1 then throw NewChannelCountZero
  else modify (set_channels newChannels).

Definition getFrameRate : M Z := gets frameRate.

Definition setFrameRate (newFrameRate : Z) : M unit :=
  if newFrameRate <? 1 then throw NewFrameRateZero
  else modify (set_frameRate newFrameRate).

(** [samples.size()] narrowed to [unsigned int] *)
Definition sampleCount (a : AudioData) : Z := UInt.wrap (size (samples a)).

Definition getSampleCount : M Z := gets sampleCount.

Definition getFrameCount : M Z :=
  let* c := gets channels in
  if c <? 1 then throw ChannelsZero
  else let* n := getSampleCount in ret (n / c).

(** The first statement of [append] and [prepend]: an object with neither
    channels nor frame rate takes them from [that]. *)
Definition adopt (that : AudioData) : M unit := fun a =>
  if (channels a =? 0) && (frameRate a =? 0)
  then Ret tt (set_frameRate (frameRate that) (set_channels (channels that) a))
  else Ret tt a.

(** [that] is read as a value: it is an object other than the receiver. *)
Definition append (that : AudioData) : M unit :=
  adopt that >>
  let* c := gets channels in
  if negb (channels that =? c) then throw AppendChannels else
  let* r := gets frameRate in
  if negb (frameRate that =? r) then throw AppendFrameRate else
  modify (fun a => set_samples (samples a ++ samples that) a).

Definition prepend (that : AudioData) : M unit :=
  adopt that >>
  let* c := gets channels in
  if negb (channels that =? c) then throw PrependChannels else
  let* r := gets frameRate in
  if negb (frameRate that =? r) then throw PrependFrameRate else
  modify (fun a => set_samples (samples that ++ samples a) a).

Definition getSample (index : Z) : M float :=
  let* n := getSampleCount in
  if index >=? n then
    let* n' := getSampleCount in throw (GetSampleBounds index n')
  else
    let* s := gets samples in defined (deref s index).

Definition getSampleByFrame (frame channel : Z) : M float :=
  let* f := getFrameCount in
  if frame >=? f then
    let* f' := getFrameCount in throw (GetFrameBounds frame f')
  else
  let* c := gets channels in
  if channel >=? c then throw (GetChannelBounds channel c)
  else getSample (UInt.add (UInt.mul frame c) channel).

Definition setSample (index : Z) (value : float) : M unit :=
  let* n := getSampleCount in
  if index >=? n then
    let* n' := getSampleCount in throw (SetSampleBounds index n')
  else
  if negb (F32.isfinite value) then throw SetSampleNaN
  else
    let* s := gets samples in
    let* s' := defined (store s index value) in
    modify (set_samples s').

Definition setSampleByFrame (frame channel : Z) (value : float) : M unit :=
  let* f := getFrameCount in
  if frame >=? f then
    let* f' := getFrameCount in throw (SetFrameBounds frame f')
  else
  let* c := gets channels in
  if channel >=? c then throw (SetChannelBounds channel c)
  else setSample (UInt.add (UInt.mul frame c) channel) value.

Definition addToSampleCount (newSamples : Z) : M unit :=
  let* n := getSampleCount in
  modify (fun a => set_samples (resize (UInt.add n newSamples) F32.zero (samples a)) a).

Definition addToFrameCount (newFrames : Z) : M unit :=
  let* c := gets channels in
  if c <? 1 then throw ChannelsZero
  else addToSampleCount (UInt.mul newFrames c).

(** *** reduceToMono *)

(** The state of the loops of [reduceToMono] and [downsample]: the deque
    and the offsets of [readAt] and [writeAt]. An [advance(it, 1)] that
    follows a read or a write through [it] gives at most [end()]; it is
    written [+ 1]. *)
Record cursor : Type := mkCursor {
  buf : list float;
  readAt : Z;
  writeAt : Z
}.

(** [readAt < samples.end()] *)
Definition reading (st : cursor) : bool := readAt st <? size (buf st).

(** [for (c = 0; c < channels; c++) { sum += *readAt; advance(readAt, 1); }],
    by recursion on the iterations that remain. *)
Fixpoint sumFrame (n : nat) (s : list float) (r : Z) (sum : float) : option (Z * float) :=
  match n with
  | O => Some (r, sum)
  | S n' =>
      match deref s r with
      | Some v => sumFrame n' s (r + 1) (F32.add sum v)
      | None => None
      end
  end.

Definition reduceBody (c : Z) (st : cursor) : option cursor :=
  match sumFrame (Z.to_nat c) (buf st) (readAt st) F32.zero with
  | Some (r, sum) =>
      match store (buf st) (writeAt st) (F32.div sum (F32.of_uint c)) with
      | Some s' => Some (mkCursor s' r (writeAt st + 1))
      | None => None
      end
  | None => None
  end.

Definition reduceToMono (fuel : nat) : M unit :=
  let* c := gets channels in
  if c <? 2 then ret tt else
  let* s := gets samples in
  let* st := of_loop (while fuel reading (reduceBody c) (mkCursor s 0 0)) in
  modify (set_samples (buf st)) >>
  let* n := getSampleCount in
  modify (fun a => set_samples (resize (n / c) F32.zero (samples a)) a) >>
  modify (set_channels 1).

(** *** downsample *)

(** [for (s = 0; s < factor; s++) { if (readAt < samples.end()) { mean +=
    *readAt; advance(readAt, 1); } mean /= (float)factor; }], by recursion
    on the iterations that remain. *)
Fixpoint boxcar (n : nat) (factor : Z) (s : list float) (r : Z) (mean : float)
    : option (Z * float) :=
  match n with
  | O => Some (r, mean)
  | S n' =>
      if r <? size s then
        match deref s r with
        | Some v => boxcar n' factor s (r + 1) (F32.div (F32.add mean v) (F32.of_uint factor))
        | None => None
        end
      else boxcar n' factor s r (F32.div mean (F32.of_uint factor))
  end.

Definition downsampleBody (factor : Z) (shortcut : bool) (st : cursor) : option cursor :=
  let step :=
    if shortcut then
      match deref (buf st) (readAt st) with
      | Some v =>
          match advance (buf st) (readAt st) factor with
          | Some r => Some (r, v)
          | None => None
          end
      | None => None
      end
    else boxcar (Z.to_nat factor) factor (buf st) (readAt st) F32.zero in
  match step with
  | Some (r, mean) =>
      match store (buf st) (writeAt st) mean with
      | Some s' => Some (mkCursor s' r (writeAt st + 1))
      | None => None
      end
  | None => None
  end.

(** The decimation loop alone, from the start of the deque. *)
Definition downsampleLoop (fuel : nat) (factor : Z) (shortcut : bool) (s : list float)
    : loop_result cursor :=
  while fuel reading (downsampleBody factor shortcut) (mkCursor s 0 0).

Definition downsample (fuel : nat) (factor : Z) (shortcut : bool) : M unit :=
  if factor =? 1 then ret tt else
  let* c := gets channels in
  if c >? 1 then throw MonophonicOnly else
  let* s := gets samples in
  let* st := of_loop (downsampleLoop fuel factor shortcut s) in
  modify (set_samples (buf st)) >>
  let* n := getSampleCount in
  let* k := defined (F32.ceil_to_size (F32.div (F32.of_uint n) (F32.of_uint factor))) in
  modify (fun a => set_samples (resize k F32.zero (samples a)) a) >>
  let* r := getFrameRate in
  let* q := defined (UInt.div r factor) in
  setFrameRate q.

(** *** discardFramesFromFront *)

Definition discardFramesFromFront (discardFrameCount : Z) : M unit :=
  let* f := getFrameCount in
  if discardFrameCount >? f then
    let* f' := getFrameCount in throw (DiscardBounds discardFrameCount f')
  else
  let* c := gets channels in
  let discardSampleCount := UInt.mul discardFrameCount c in
  let* s := gets samples in
  let* s' := defined (erase_front discardSampleCount s) in
  modify (set_samples s').

(** *** sliceSamplesFromBack *)

(** [while (readAt < samples.end()) { *writeAt = *readAt; advance(readAt, 1);
    advance(writeAt, 1); }]: [buf] is the deque of [that], written through
    [writeAt]; [readAt] runs over the deque [s] of the receiver. *)
Definition sliceBody (s : list float) (st : cursor) : option cursor :=
  match deref s (readAt st) with
  | Some v =>
      match store (buf st) (writeAt st) v with
      | Some t' => Some (mkCursor t' (readAt st + 1) (writeAt st + 1))
      | None => None
      end
  | None => None
  end.

Definition sliceSamplesFromBack (fuel : nat) (sliceSampleCount : Z) : M AudioData :=
  let* n := getSampleCount in
  if sliceSampleCount >? n then
    let* n' := getSampleCount in throw (SliceBounds sliceSampleCount n')
  else
  let that := empty in
  let* c := gets channels in
  let that := set_channels c that in
  let* r := getFrameRate in
  let* p := on that (setFrameRate r) in
  let* p := on (snd p) (addToSampleCount sliceSampleCount) in
  let that := snd p in
  let* s := gets samples in
  let* n := getSampleCount in
  let* st := of_loop (while fuel (fun st => readAt st <? size s) (sliceBody s)
                        (mkCursor (samples that) (UInt.sub n sliceSampleCount) 0)) in
  let that := set_samples (buf st) that in
  let* n := getSampleCount in
  modify (fun a => set_samples (resize (UInt.sub n sliceSampleCount) F32.zero (samples a)) a) >>
  ret that.

(** *** The streaming iterators *)

Definition resetIterators : M unit :=
  modify (set_readIterator 0) >> modify (set_writeIterator 0).

Definition readIteratorWithinUpperBound : M bool :=
  gets (fun a => readIterator a <? size (samples a)).

Definition writeIteratorWithinUpperBound : M bool :=
  gets (fun a => writeIterator a <? size (samples a)).

Definition advanceReadIterator (by_ : Z) : M unit :=
  let* s := gets samples in
  let* i := gets readIterator in
  let* j := defined (advance s i by_) in
  modify (set_readIterator j).

Definition advanceWriteIterator (by_ : Z) : M unit :=
  let* s := gets samples in
  let* i := gets writeIterator in
  let* j := defined (advance s i by_) in
  modify (set_writeIterator j).

Definition getSampleAtReadIterator : M float :=
  let* s := gets samples in
  let* i := gets readIterator in
  defined (deref s i).

Definition setSampleAtWriteIterator (value : float) : M unit :=
  let* s := gets samples in
  let* i := gets writeIterator in
  let* s' := defined (store s i value) in
  modify (set_samples s').

(** ** Sample values used in the examples *)

Definition f1 : float := F32.of_uint 1.
Definition f2 : float := F32.of_uint 2.
Definition f3 : float := F32.of_uint 3.
Definition f4 : float := F32.of_uint 4.
Definition f5 : float := F32.of_uint 5.
Definition f6 : float := F32.of_uint 6.
Definition f7 : float := F32.of_uint 7.
Definition f8 : float := F32.of_uint 8.
(** 2.5 and 6.5 *)
Definition f2_5 : float := F32.div f5 f2.
Definition f6_5 : float := F32.div (F32.of_uint 13) f2.

Definition stereo4 : AudioData :=
  mkAudioData [f1; f3; f2; f4; f5; f7; f6; f8] 2 44100 0 0.
Definition mono4 : AudioData :=
  mkAudioData [f2; f3; f6; f7] 1 44100 0 0.

(** ** The calls that change an object

    [perform] runs one call of the public interface; it returns the buffer
    that [sliceSamplesFromBack] creates, and nothing for the others. *)

Inductive call : Type :=
| SetChannels (newChannels : Z)
| SetFrameRate (newFrameRate : Z)
| Append (that : AudioData)
| Prepend (that : AudioData)
| SetSample (index : Z) (value : float)
| SetSampleByFrame (frame channel : Z) (value : float)
| AddToSampleCount (newSamples : Z)
| AddToFrameCount (newFrames : Z)
| ReduceToMono
| Downsample (factor : Z) (shortcut : bool)
| DiscardFramesFromFront (discardFrameCount : Z)
| SliceSamplesFromBack (sliceSampleCount : Z)
| ResetIterators
| AdvanceReadIterator (by_ : Z)
| AdvanceWriteIterator (by_ : Z)
| SetSampleAtWriteIterator (value : float).

Definition nothing (m : M unit) : M (option AudioData) := m >> ret None.

Definition perform (fuel : nat) (c : call) : M (option AudioData) :=
  match c with
  | SetChannels n => nothing (setChannels n)
  | SetFrameRate n => nothing (setFrameRate n)
  | Append that => nothing (append that)
  | Prepend that => nothing (prepend that)
  | SetSample i v => nothing (setSample i v)
  | SetSampleByFrame f c v => nothing (setSampleByFrame f c v)
  | AddToSampleCount n => nothing (addToSampleCount n)
  | AddToFrameCount n => nothing (addToFrameCount n)
  | ReduceToMono => nothing (reduceToMono fuel)
  | Downsample factor shortcut => nothing (downsample fuel factor shortcut)
  | DiscardFramesFromFront n => nothing (discardFramesFromFront n)
  | SliceSamplesFromBack n =>
      let* that := sliceSamplesFromBack fuel n in ret (Some that)
  | ResetIterators => nothing resetIterators
  | AdvanceReadIterator n => nothing (advanceReadIterator n)
  | AdvanceWriteIterator n => nothing (advanceWriteIterator n)
  | SetSampleAtWriteIterator v => nothing (setSampleAtWriteIterator v)
  end.

(** The other object a call reads. *)
Definition argument (c : call) : option AudioData :=
  match c with
  | Append that | Prepend that => Some that
  | _ => None
  end.

(** The states an object can be in: it is created empty, and every call
    among the [allowed] ones, whether it returns or throws, leaves it in
    another such state; so is the buffer a slice returns. *)
Inductive reachable (allowed : call -> Prop) : AudioData -> Prop :=
| reach_empty : reachable allowed empty
| reach_return fuel c a r a' :
    reachable allowed a -> allowed c ->
    (forall that, argument c = Some that -> reachable allowed that) ->
    perform fuel c a = Ret r a' -> reachable allowed a'
| reach_throw fuel c a e a' :
    reachable allowed a -> allowed c ->
    (forall that, argument c = Some that -> reachable allowed that) ->
    perform fuel c a = Throw e a' -> reachable allowed a'
| reach_slice fuel c a that a' :
    reachable allowed a -> allowed c ->
    perform fuel c a = Ret (Some that) a' -> reachable allowed that.

Definition every : call -> Prop := fun _ => True.

(** Every stored sample is finite. *)
Definition finite_samples (a : AudioData) : Prop :=
  Forall (fun x => F32.isfinite x = true) (samples a).

(** A call fails with an error of class [k] and leaves the object as it was. *)
Definition fails {A} (m : M A) (a : AudioData) (k : ErrorKind) : Prop :=
  exists e, m a = Throw e a /\ kind e = k.

(** [k] iterations of a loop body *)
Fixpoint iterate {S : Type} (k : nat) (body : S -> option S) (s : S) : option S :=
  match k with
  | O => Some s
  | Datatypes.S k' =>
      match body s with
      | Some s' => iterate k' body s'
      | None => None
      end
  end.

(** ** Further definitions used in the statements *)

Definition unconfigured2 : AudioData := mkAudioData [F32.zero; F32.zero] 0 0 0 0.

Definition monoA : AudioData := mkAudioData [f1] 1 44100 0 0.
Definition monoB : AudioData := mkAudioData [f2] 1 44100 0 0.

Definition mono4_slow : AudioData := mkAudioData [f2; f3; f6; f7] 1 1 0 0.

Definition mono3 : AudioData := mkAudioData [f2; f3; f6] 1 44100 0 0.





Abbreviation finite := (fun x : float => F32.isfinite x = true).

(** [m] keeps the samples finite: from an object with finite samples it
    ends, when it returns or throws, in an object with finite samples, and
    what it returns satisfies [Q]. *)
Definition preserves {A} (m : M A) (Q : A -> Prop) : Prop :=
  forall a, finite_samples a ->
    match m a with
    | Ret v a' => finite_samples a' /\ Q v
    | Throw _ a' => finite_samples a'
    | Undefined | OutOfFuel => True
    end.

(** The calls that store no value but finite ones they are given, zeros and
    copies of stored samples: all but the two that store averages, and the
    write through the iterator when its argument is not finite. *)
Definition copying (c : call) : Prop :=
  match c with
  | ReduceToMono => False
  | Downsample _ shortcut => shortcut = true
  | SetSampleAtWriteIterator value => F32.isfinite value = true
  | _ => True
  end.

(** A sequence of calls that all return *)
Fixpoint performAll (fuel : nat) (cs : list call) (a : AudioData) : option AudioData :=
  match cs with
  | [] => Some a
  | c :: cs' =>
      match perform fuel c a with
      | Ret _ a' => performAll fuel cs' a'
      | _ => None
      end
  end.

Definition fmax : float := SFmax_float F32.prec F32.emax.

Definition writeNaN : list call :=
  [AddToSampleCount 1; ResetIterators; SetSampleAtWriteIterator S754_nan].
Definition overflowMono : list call :=
  [SetChannels 2; SetFrameRate 44100; AddToFrameCount 1;
   SetSample 0 fmax; SetSample 1 fmax; ReduceToMono].
Definition overflowBoxcar : list call :=
  [SetChannels 1; SetFrameRate 44100; AddToFrameCount 2;
   SetSample 0 fmax; SetSample 1 fmax; Downsample 2 false].

(** The deque holds whole frames: its length is a multiple of the channel
    count (with no channels, it is empty). *)
Definition wholeFrames (a : AudioData) : Prop :=
  exists k : Z, size (samples a) = k * channels a.

(** What one iteration of [reduceToMono] stores for a frame, with [c]
    channels: the sum of the samples of the frame, added one after the other
    to 0, divided by the channel count. *)
Definition frameMean (c : Z) (fr : list float) : float :=
  F32.div (fold_left F32.add fr F32.zero) (F32.of_uint c).

(** What the block loop of [downsample] makes of a block, from the value
    [mean] it starts with: after each sample is added, the value is divided
    by the factor. *)
Definition runningMean (factor : Z) (block : list float) (mean : float) : float :=
  fold_left (fun m v => F32.div (F32.add m v) (F32.of_uint factor)) block mean.

(** The value one iteration of the decimation loop takes from the deque [s]
    at the offset i * factor: the sample there, or what [boxcar] makes of the
    samples from there on. *)
Definition decimated (factor : Z) (shortcut : bool) (s : list float) (i : Z)
    : option float :=
  if shortcut then deref s (i * factor)
  else match boxcar (Z.to_nat factor) factor s (i * factor) F32.zero with
       | Some (_, mean) => Some mean
       | None => None
       end.

(** What holds of the deque during the decimation loop on [s]: [k]
    iterations have written the first [k] places, the places from [readAt]
    on are those of [s], and [readAt] is at k * factor or behind the end. *)
Definition decimating (factor : Z) (shortcut : bool) (s : list float) (st : cursor) : Prop :=
  size (buf st) = size s
  /\ exists k : Z,
       0 <= k /\ writeAt st = k /\ k <= readAt st <= k * factor
       /\ (readAt st = k * factor \/ size s <= readAt st)
       /\ (forall i, 0 <= i < k -> deref (buf st) i = decimated factor shortcut s i)
       /\ (forall j, readAt st <= j -> deref (buf st) j = deref s j).

Ltac run_in H :=
  cbv beta iota delta [bind gets throw modify defined ret undefined nothing on of_loop
                       getSampleCount getFrameRate getChannels getFrameCount adopt] in H.

Ltac split_in H :=
  repeat (run_in H;
          match type of H with
          | context [if ?b then _ else _] => destruct b eqn:?
          | context [match ?o with Some _ => _ | None => _ end] => destruct o eqn:?
          | context [match ?r with Finished _ => _ | Stuck => _ | Running => _ end] =>
              destruct r eqn:?
          end).

Ltac bools :=
  repeat match goal with
         | H : (_ =? _) = true |- _ => apply Z.eqb_eq in H
         | H : (_ =? _) = false |- _ => apply Z.eqb_neq in H
         | H : (_ <? _) = true |- _ => apply Z.ltb_lt in H
         | H : (_ <? _) = false |- _ => apply Z.ltb_ge in H
         | H : (_ >? _) = true |- _ => apply Z.gtb_lt in H
         | H : (_ >? _) = false |- _ => rewrite Z.gtb_ltb in H; apply Z.ltb_ge in H
         end.

(** * Properties *)

(** ** Lists and offsets *)

Lemma modulus_value : UInt.modulus = 4294967296.
Proof. reflexivity. Qed.

Lemma size_nonneg (s : list float) : 0 <= size s.
Proof. unfold size. lia. Qed.

Lemma wrap_small (z : Z) : 0 <= z < UInt.modulus -> UInt.wrap z = z.
Proof. intros H. unfold UInt.wrap. now apply Z.mod_small. Qed.

Lemma wrap_range (z : Z) : 0 <= UInt.wrap z < UInt.modulus.
Proof. unfold UInt.wrap, UInt.modulus. apply Z.mod_pos_bound. lia. Qed.

Lemma wrap_le (z : Z) : 0 <= z -> UInt.wrap z <= z.
Proof. intros H. unfold UInt.wrap, UInt.modulus. apply Z.mod_le; lia. Qed.

Lemma sampleCount_le_size (a : AudioData) : 0 <= sampleCount a <= size (samples a).
Proof.
  unfold sampleCount. split; [apply wrap_range | apply wrap_le, size_nonneg].
Qed.

Lemma deref_in_range (s : list float) (i : Z) :
  0 <= i < size s -> exists v, deref s i = Some v /\ s !! Z.to_nat i = Some v.
Proof.
  intros H. unfold deref.
  destruct (Z.leb_spec 0 i); [|lia]. destruct (Z.ltb_spec i (size s)); [|lia].
  cbn. destruct (lookup_lt_is_Some_2 s (Z.to_nat i)) as [v Hv].
  - unfold size in H. lia.
  - exists v. now rewrite Hv.
Qed.

Lemma store_in_range (s : list float) (i : Z) (v : float) :
  0 <= i < size s -> store s i v = Some (<[Z.to_nat i := v]> s).
Proof.
  intros H. unfold store.
  destruct (Z.leb_spec 0 i); [|lia]. now destruct (Z.ltb_spec i (size s)); [|lia].
Qed.

Lemma store_size (s s' : list float) (i : Z) (v : float) :
  store s i v = Some s' -> size s' = size s.
Proof.
  unfold store. destruct (_ && _); [|discriminate].
  intros [= <-]. unfold size. now rewrite length_insert.
Qed.

Lemma resize_all (s : list float) (v : float) : resize (size s) v s = s.
Proof.
  unfold resize, size. rewrite Nat2Z.id, firstn_all, Nat.sub_diag. cbn.
  apply app_nil_r.
Qed.

(** ** Loops *)

(** A property that holds before a loop and that every iteration keeps
    holds when the loop is left. *)
Lemma while_invariant {S : Type} (P : S -> Prop) (cond : S -> bool) (body : S -> option S) :
  (forall s s', P s -> cond s = true -> body s = Some s' -> P s') ->
  forall fuel s s', P s -> while fuel cond body s = Finished s' -> P s' /\ cond s' = false.
Proof.
  intros Hstep. induction fuel as [|fuel IH]; intros s s' HP; cbn.
  - destruct (cond s) eqn:Hc; [discriminate|]. intros [= <-]. now split.
  - destruct (cond s) eqn:Hc.
    + destruct (body s) as [s1|] eqn:Hb; [|discriminate].
      apply IH. eapply Hstep; eassumption.
    + intros [= <-]. now split.
Qed.

Lemma while_step {S : Type} (fuel : nat) (cond : S -> bool) (body : S -> option S)
    (s s' : S) :
  cond s = true -> body s = Some s' ->
  while (Datatypes.S fuel) cond body s = while fuel cond body s'.
Proof. intros Hc Hb. cbn. now rewrite Hc, Hb. Qed.

Lemma while_stuck {S : Type} (fuel : nat) (cond : S -> bool) (body : S -> option S)
    (s : S) :
  cond s = true -> body s = None ->
  while (Datatypes.S fuel) cond body s = Stuck.
Proof. intros Hc Hb. cbn. now rewrite Hc, Hb. Qed.

Lemma while_done {S : Type} (fuel : nat) (cond : S -> bool) (body : S -> option S)
    (s : S) :
  cond s = false -> while fuel cond body s = Finished s.
Proof. intros Hc. destruct fuel; cbn; now rewrite Hc. Qed.

(** ** Messages *)

Example what_getSample :
  what (GetSampleBounds 4 4) = "Cannot get out-of-bounds sample (4/4)"%string.
Proof. reflexivity. Qed.

Example what_discard :
  what (DiscardBounds 3 2) = "Cannot discard 3 frames of 2"%string.
Proof. reflexivity. Qed.

(** ** Configuration *)

(** C8. For every [n >= 1], [setChannels n] and [setFrameRate n] return,
    the getter then returns [n], and no other field has changed; with 0
    both fail with an invalid-configuration error and change nothing. *)
Theorem setChannels_setFrameRate_spec (a : AudioData) (n : Z) :
  1 <= n ->
  (exists a', setChannels n a = Ret tt a' /\ getChannels a' = Ret n a'
     /\ samples a' = samples a /\ frameRate a' = frameRate a
     /\ readIterator a' = readIterator a /\ writeIterator a' = writeIterator a)
  /\ (exists a', setFrameRate n a = Ret tt a' /\ getFrameRate a' = Ret n a'
     /\ samples a' = samples a /\ channels a' = channels a
     /\ readIterator a' = readIterator a /\ writeIterator a' = writeIterator a)
  /\ fails (setChannels 0) a InvalidConfiguration
  /\ fails (setFrameRate 0) a InvalidConfiguration.
Proof.
  intros Hn. unfold setChannels, setFrameRate.
  destruct (Z.ltb_spec n 1) as [?|_]; [lia|].
  repeat split.
  - exists (set_channels n a). now repeat split.
  - exists (set_frameRate n a). now repeat split.
  - exists NewChannelCountZero. now split.
  - exists NewFrameRateZero. now split.
Qed.

Lemma setChannels_setFrameRate_spec_witness :
  fails (setChannels 0) empty InvalidConfiguration
  /\ fails (setFrameRate 0) empty InvalidConfiguration.
Proof.
  destruct (setChannels_setFrameRate_spec empty 2) as (_ & _ & H); [lia | exact H].
Defined.

(** ** Indexed access *)

Lemma getSample_throws (a : AudioData) (index : Z) :
  sampleCount a <= index ->
  getSample index a = Throw (GetSampleBounds index (sampleCount a)) a.
Proof.
  intros H. unfold getSample, getSampleCount, bind, gets, throw.
  now destruct (Z.geb_spec index (sampleCount a)); [|lia].
Qed.

Lemma getSample_returns (a : AudioData) (index : Z) :
  0 <= index < sampleCount a ->
  exists v, getSample index a = Ret v a /\ samples a !! Z.to_nat index = Some v.
Proof.
  intros H. unfold getSample, getSampleCount, bind, gets, throw.
  destruct (Z.geb_spec index (sampleCount a)); [lia|].
  destruct (deref_in_range (samples a) index) as (v & Hv & Hl).
  - pose proof (sampleCount_le_size a). lia.
  - exists v. rewrite Hv. now split.
Qed.

Lemma setSample_throws_bounds (a : AudioData) (index : Z) (value : float) :
  sampleCount a <= index ->
  setSample index value a = Throw (SetSampleBounds index (sampleCount a)) a.
Proof.
  intros H. unfold setSample, getSampleCount, bind, gets, throw.
  now destruct (Z.geb_spec index (sampleCount a)); [|lia].
Qed.

Lemma setSample_throws_nan (a : AudioData) (index : Z) (value : float) :
  index < sampleCount a -> F32.isfinite value = false ->
  setSample index value a = Throw SetSampleNaN a.
Proof.
  intros H Hv. unfold setSample, getSampleCount, bind, gets, throw.
  destruct (Z.geb_spec index (sampleCount a)); [lia|]. now rewrite Hv.
Qed.

Lemma setSample_returns (a : AudioData) (index : Z) (value : float) :
  0 <= index < sampleCount a -> F32.isfinite value = true ->
  setSample index value a = Ret tt (set_samples (<[Z.to_nat index := value]> (samples a)) a).
Proof.
  intros H Hv. unfold setSample, getSampleCount, bind, gets, throw, modify.
  destruct (Z.geb_spec index (sampleCount a)); [lia|]. rewrite Hv. cbn.
  rewrite store_in_range; [reflexivity|].
  pose proof (sampleCount_le_size a). lia.
Qed.

Lemma getFrameCount_returns (a : AudioData) :
  1 <= channels a -> getFrameCount a = Ret (sampleCount a / channels a) a.
Proof.
  intros H. unfold getFrameCount, getSampleCount, bind, gets, ret.
  now destruct (Z.ltb_spec (channels a) 1); [lia|].
Qed.

Lemma getFrameCount_throws (a : AudioData) :
  channels a < 1 -> getFrameCount a = Throw ChannelsZero a.
Proof.
  intros H. unfold getFrameCount, getSampleCount, bind, gets, ret, throw.
  now destruct (Z.ltb_spec (channels a) 1); [|lia].
Qed.

(** C7. [getSample] and [setSample] fail with an out-of-bounds error exactly
    when the index is not below the sample count; [setSample] of a value that
    is not finite fails (with the non-finite-value error when the index is in
    bounds) and leaves the deque as it was; [getSample] of the last index
    returns whenever there is a sample; and with a channel count of at least
    one, [getSampleByFrame] at the frame count fails as out of bounds. *)
Theorem indexed_access_bounds (a : AudioData) (index : Z) (value : float) :
  (fails (getSample index) a OutOfBounds <-> index >= sampleCount a)
  /\ (fails (setSample index value) a OutOfBounds <-> index >= sampleCount a)
  /\ (F32.isfinite value = false ->
      (index < sampleCount a -> fails (setSample index value) a NonFiniteValue)
      /\ exists e, setSample index value a = Throw e a)
  /\ (sampleCount a > 0 -> exists v, getSample (sampleCount a - 1) a = Ret v a)
  /\ (1 <= channels a ->
      getFrameCount a = Ret (sampleCount a / channels a) a
      /\ fails (getSampleByFrame (sampleCount a / channels a) 0) a OutOfBounds).
Proof.
  split; [|split; [|split; [|split]]].
  - split.
    + intros (e & He & Hk). destruct (Z.lt_ge_cases index (sampleCount a)) as [Hlt|]; [|lia].
      exfalso. revert He. unfold getSample, getSampleCount, bind, gets, throw.
      destruct (Z.geb_spec index (sampleCount a)); [lia|].
      unfold defined, ret, undefined. now destruct (deref _ _).
    + intros H. eexists. split; [apply getSample_throws; lia | reflexivity].
  - split.
    + intros (e & He & Hk). destruct (Z.lt_ge_cases index (sampleCount a)) as [Hlt|]; [|lia].
      exfalso. destruct (F32.isfinite value) eqn:Hv.
      * revert He. unfold setSample, getSampleCount, bind, gets, throw.
        destruct (Z.geb_spec index (sampleCount a)); [lia|]. rewrite Hv. cbn.
        unfold defined, ret, undefined. now destruct (store _ _ _).
      * rewrite setSample_throws_nan in He by assumption.
        injection He as <-. discriminate.
    + intros H. eexists. split; [apply setSample_throws_bounds; lia | reflexivity].
  - intros Hv. split.
    + intros Hlt. eexists. split; [now apply setSample_throws_nan | reflexivity].
    + destruct (Z.lt_ge_cases index (sampleCount a)).
      * eexists. now apply setSample_throws_nan.
      * eexists. now apply setSample_throws_bounds.
  - intros H. destruct (getSample_returns a (sampleCount a - 1)) as (v & Hv & _); [lia|].
    now exists v.
  - intros Hc. split; [now apply getFrameCount_returns|].
    exists (GetFrameBounds (sampleCount a / channels a) (sampleCount a / channels a)).
    split; [|reflexivity].
    unfold getSampleByFrame, bind. rewrite getFrameCount_returns by assumption.
    destruct (Z.geb_spec (sampleCount a / channels a) (sampleCount a / channels a)); [|lia].
    now rewrite getFrameCount_returns by assumption.
Qed.

Lemma indexed_access_bounds_witness :
  (exists v, getSample 3 mono4 = Ret v mono4)
  /\ fails (setSample 3 S754_nan) mono4 NonFiniteValue
  /\ fails (getSampleByFrame 4 0) mono4 OutOfBounds.
Proof.
  destruct (indexed_access_bounds mono4 3 S754_nan) as (_ & _ & Hnan & Hlast & Hframe).
  split; [|split].
  - apply Hlast. reflexivity.
  - apply Hnan; reflexivity.
  - apply Hframe. cbn. lia.
Defined.

(** ** Slicing from the back *)

Lemma drop_cons_inv (s : list float) (k : nat) (v : float) (t : list float) :
  drop k s = v :: t -> s !! k = Some v /\ drop (S k) s = t /\ (k < length s)%nat.
Proof.
  intros H. assert (Hl : s !! k = Some v).
  { rewrite <- (Nat.add_0_r k), <- lookup_drop, H. reflexivity. }
  split; [assumption|]. split.
  - rewrite (drop_S s v k Hl) in H. congruence.
  - eapply lookup_lt_Some; eassumption.
Qed.

(** The copy loop of [sliceSamplesFromBack]: with [todo] still to read from
    the receiver and as many places left in the new deque, it ends with
    [todo] written behind what was written before. *)
Lemma slice_loop (s : list float) :
  forall (todo pre junk : list float) (fuel : nat) (r : Z),
    length junk = length todo -> (length todo <= fuel)%nat ->
    0 <= r -> r + size todo = size s -> drop (Z.to_nat r) s = todo ->
    while fuel (fun st => readAt st <? size s) (sliceBody s)
      (mkCursor (pre ++ junk) r (size pre))
    = Finished (mkCursor (pre ++ todo) (size s) (size (pre ++ todo))).
Proof.
  induction todo as [|v todo IH]; intros pre junk fuel r Hj Hf Hr Hs Hd.
  - destruct junk; [|discriminate].
    assert (r = size s) as -> by (unfold size in *; cbn in Hs; lia).
    rewrite !app_nil_r. apply while_done. cbn. apply Z.ltb_irrefl.
  - destruct junk as [|j junk]; [discriminate|].
    destruct fuel as [|fuel]; [cbn in Hf; lia|].
    apply drop_cons_inv in Hd as (Hl & Hd & Hlt).
    assert (Hrs : r < size s) by (unfold size in *; cbn in Hs; lia).
    rewrite (while_step _ _ _ _ (mkCursor ((pre ++ [v]) ++ junk) (r + 1) (size (pre ++ [v])))).
    + rewrite (IH (pre ++ [v]) junk fuel (r + 1)).
      * now rewrite <- app_assoc.
      * cbn in Hj. lia.
      * cbn in Hf. lia.
      * lia.
      * unfold size in *. cbn in Hs. lia.
      * replace (Z.to_nat (r + 1)) with (S (Z.to_nat r)) by lia. assumption.
    + cbn. now apply Z.ltb_lt.
    + unfold sliceBody. cbn.
      destruct (deref_in_range s r) as (v' & -> & Hl'); [lia|].
      rewrite Hl in Hl'. injection Hl' as <-.
      rewrite store_in_range.
      2:{ unfold size. rewrite length_app. cbn. lia. }
      replace (Z.to_nat (size pre)) with (length pre + 0)%nat by (unfold size; lia).
      rewrite insert_app_r. cbn. rewrite <- app_assoc. cbn.
      do 2 f_equal. unfold size. rewrite length_app. cbn. lia.
Qed.

Lemma sliceSamplesFromBack_throws_frameRate (fuel : nat) (a : AudioData) (n : Z) :
  frameRate a < 1 -> n <= sampleCount a ->
  sliceSamplesFromBack fuel n a = Throw NewFrameRateZero a.
Proof.
  intros Hr Hn. unfold sliceSamplesFromBack, getSampleCount, getFrameRate, bind, gets.
  destruct (Z.gtb_spec n (sampleCount a)); [lia|].
  unfold on, setFrameRate. now destruct (Z.ltb_spec (frameRate a) 1); [|lia].
Qed.

Lemma sliceSamplesFromBack_returns (fuel : nat) (a : AudioData) (n : Z) :
  1 <= frameRate a -> size (samples a) < UInt.modulus ->
  0 <= n <= size (samples a) -> (Z.to_nat n <= fuel)%nat ->
  sliceSamplesFromBack fuel n a
  = Ret (mkAudioData (drop (Z.to_nat (size (samples a) - n)) (samples a))
           (channels a) (frameRate a) 0 0)
        (set_samples (take (Z.to_nat (size (samples a) - n)) (samples a)) a).
Proof.
  intros Hr Hs Hn Hf.
  assert (Hc : sampleCount a = size (samples a)).
  { unfold sampleCount. apply wrap_small. pose proof (size_nonneg (samples a)). lia. }
  unfold sliceSamplesFromBack, getSampleCount, getFrameRate, bind, gets.
  destruct (Z.gtb_spec n (sampleCount a)); [lia|].
  unfold on at 1, setFrameRate. destruct (Z.ltb_spec (frameRate a) 1); [lia|].
  unfold modify. cbn [snd].
  unfold on, addToSampleCount, getSampleCount, bind, gets, modify. cbn [snd].
  assert (Hz : forall t, samples t = [] ->
            resize (UInt.add (sampleCount t) n) F32.zero []
            = [] ++ replicate (Z.to_nat n) F32.zero).
  { intros t Ht. unfold sampleCount, UInt.add. rewrite Ht.
    change (size []) with 0. rewrite (wrap_small 0) by (rewrite modulus_value; lia).
    rewrite wrap_small by lia.
    unfold resize. rewrite take_nil. cbn. f_equal. lia. }
  rewrite !Hz by reflexivity. cbn [samples set_samples].
  rewrite Hc.
  replace (UInt.sub (size (samples a)) n) with (size (samples a) - n).
  2:{ unfold UInt.sub. rewrite wrap_small; [reflexivity|lia]. }
  change 0 with (size []) at 1.
  rewrite (slice_loop (samples a) (drop (Z.to_nat (size (samples a) - n)) (samples a))
             [] (replicate (Z.to_nat n) F32.zero) fuel (size (samples a) - n)).
  - cbn. unfold ret. f_equal. f_equal. rewrite Hc.
    replace (UInt.sub (size (samples a)) n) with (size (samples a) - n).
    2:{ unfold UInt.sub. rewrite wrap_small; [reflexivity|lia]. }
    unfold resize.
    replace (Z.to_nat (size (samples a) - n) - _)%nat with 0%nat by (unfold size; lia).
    cbn. now rewrite app_nil_r.
  - rewrite length_replicate, length_drop. unfold size in *. lia.
  - rewrite length_drop. unfold size in *. lia.
  - lia.
  - unfold size at 2. rewrite length_drop. unfold size in *. lia.
  - reflexivity.
Qed.

(** A buffer that was grown and never configured *)
Example unconfigured2_reachable :
  performAll 0 [AddToSampleCount 2] empty = Some unconfigured2.
Proof. reflexivity. Qed.

(** C10. When the frame rate is 0, [sliceSamplesFromBack n] with [n] up to
    the sample count throws while it sets the frame rate of the new buffer:
    an invalid-configuration error, not an out-of-bounds one; no buffer is
    returned and the receiver is as it was. *)
Theorem sliceSamplesFromBack_unconfigured (fuel : nat) (a : AudioData) (n : Z) :
  frameRate a = 0 -> n <= sampleCount a ->
  sliceSamplesFromBack fuel n a = Throw NewFrameRateZero a
  /\ fails (sliceSamplesFromBack fuel n) a InvalidConfiguration
  /\ ~ fails (sliceSamplesFromBack fuel n) a OutOfBounds
  /\ (forall that a', sliceSamplesFromBack fuel n a <> Ret that a').
Proof.
  intros Hr Hn.
  assert (H : sliceSamplesFromBack fuel n a = Throw NewFrameRateZero a)
    by (apply sliceSamplesFromBack_throws_frameRate; lia).
  split; [assumption|]. split; [|split].
  - exists NewFrameRateZero. now split.
  - intros (e & He & Hk). rewrite H in He. injection He as <-. discriminate.
  - intros that a'. rewrite H. discriminate.
Qed.

Lemma sliceSamplesFromBack_unconfigured_witness :
  sliceSamplesFromBack 2 1 unconfigured2 = Throw NewFrameRateZero unconfigured2
  /\ fails (sliceSamplesFromBack 2 1) unconfigured2 InvalidConfiguration.
Proof.
  destruct (sliceSamplesFromBack_unconfigured 2 unconfigured2 1) as (H1 & H2 & _).
  - reflexivity.
  - now apply Z.leb_le.
  - split; [exact H1 | exact H2].
Defined.

Lemma append_returns (a that : AudioData) :
  channels a <> 0 \/ frameRate a <> 0 ->
  channels that = channels a -> frameRate that = frameRate a ->
  append that a = Ret tt (set_samples (samples a ++ samples that) a).
Proof.
  intros Hcfg Hc Hr. unfold append, adopt, bind, gets, throw, modify.
  assert ((channels a =? 0) && (frameRate a =? 0) = false) as ->.
  { apply andb_false_iff. rewrite !Z.eqb_neq. tauto. }
  cbn. rewrite Hc, Z.eqb_refl. cbn. now rewrite Hr, Z.eqb_refl.
Qed.

Lemma prepend_returns (a that : AudioData) :
  channels a <> 0 \/ frameRate a <> 0 ->
  channels that = channels a -> frameRate that = frameRate a ->
  prepend that a = Ret tt (set_samples (samples that ++ samples a) a).
Proof.
  intros Hcfg Hc Hr. unfold prepend, adopt, bind, gets, throw, modify.
  assert ((channels a =? 0) && (frameRate a =? 0) = false) as ->.
  { apply andb_false_iff. rewrite !Z.eqb_neq. tauto. }
  cbn. rewrite Hc, Z.eqb_refl. cbn. now rewrite Hr, Z.eqb_refl.
Qed.

(** C5, as the code has it. When the frame rate has been set and the sample
    count fits an [unsigned int], [sliceSamplesFromBack n] with [n] up to
    the sample count returns a buffer, and appending that buffer to the
    receiver gives back the receiver as it was before the slice: the same
    samples, channels and frame rate. *)
Theorem slice_then_append_restores (fuel : nat) (a : AudioData) (n : Z) :
  1 <= frameRate a -> size (samples a) < UInt.modulus ->
  0 <= n <= sampleCount a -> (Z.to_nat n <= fuel)%nat ->
  exists that a1 a2,
    sliceSamplesFromBack fuel n a = Ret that a1
    /\ size (samples that) = n
    /\ append that a1 = Ret tt a2
    /\ samples a2 = samples a /\ channels a2 = channels a
    /\ frameRate a2 = frameRate a /\ a2 = a.
Proof.
  intros Hr Hs Hn Hf.
  assert (Hc : sampleCount a = size (samples a)).
  { unfold sampleCount. apply wrap_small. pose proof (size_nonneg (samples a)). lia. }
  rewrite Hc in Hn.
  eexists _, _, a. split; [now apply sliceSamplesFromBack_returns|].
  split.
  { cbn. unfold size in *. rewrite length_drop. lia. }
  assert (H : append (mkAudioData (drop (Z.to_nat (size (samples a) - n)) (samples a))
                        (channels a) (frameRate a) 0 0)
                (set_samples (take (Z.to_nat (size (samples a) - n)) (samples a)) a)
              = Ret tt a).
  { rewrite append_returns; [|cbn; lia|reflexivity|reflexivity].
    cbn. rewrite take_drop. now destruct a. }
  now repeat split.
Qed.

Lemma slice_then_append_restores_witness :
  exists that a1 a2,
    sliceSamplesFromBack 3 3 mono4 = Ret that a1
    /\ size (samples that) = 3
    /\ append that a1 = Ret tt a2
    /\ samples a2 = samples mono4 /\ channels a2 = channels mono4
    /\ frameRate a2 = frameRate mono4 /\ a2 = mono4.
Proof.
  apply (slice_then_append_restores 3 mono4 3).
  - now apply Z.leb_le.
  - reflexivity.
  - split; now apply Z.leb_le.
  - apply Nat.leb_le. reflexivity.
Defined.

(** C5 as it is written fails on a buffer whose frame rate was never set:
    the slice throws, so there is no buffer to append. *)
Lemma slice_then_append_counterexample :
  0 <= 1 <= sampleCount unconfigured2
  /\ ~ (exists fuel that a1, sliceSamplesFromBack fuel 1 unconfigured2 = Ret that a1).
Proof.
  split.
  - split; now apply Z.leb_le.
  - intros (fuel & that & a1 & H).
    rewrite sliceSamplesFromBack_throws_frameRate in H; [discriminate| |].
    + cbn. lia.
    + now apply Z.leb_le.
Qed.

(** ** Merging and discarding *)

Lemma discardFramesFromFront_returns (a : AudioData) (n : Z) :
  1 <= channels a -> size (samples a) < UInt.modulus ->
  0 <= n <= size (samples a) / channels a ->
  discardFramesFromFront n a
  = Ret tt (set_samples (drop (Z.to_nat (n * channels a)) (samples a)) a).
Proof.
  intros Hc Hs Hn.
  assert (Hcount : sampleCount a = size (samples a)).
  { unfold sampleCount. apply wrap_small. pose proof (size_nonneg (samples a)). lia. }
  assert (Hmul : 0 <= n * channels a <= size (samples a)).
  { split; [nia|].
    transitivity (size (samples a) / channels a * channels a); [nia|].
    rewrite Z.mul_comm. apply Z.mul_div_le. lia. }
  unfold discardFramesFromFront, bind. rewrite getFrameCount_returns by assumption.
  rewrite Hcount. destruct (Z.gtb_spec n (size (samples a) / channels a)); [lia|].
  unfold gets, defined, UInt.mul. rewrite wrap_small by lia.
  unfold erase_front.
  destruct (Z.leb_spec 0 (n * channels a)); [|lia].
  destruct (Z.leb_spec (n * channels a) (size (samples a))); [|lia].
  reflexivity.
Qed.

(** C4 as it is written fails: after appending [monoB] to [monoA],
    discarding the one frame of [monoB] from the front removes the sample of
    [monoA] and keeps that of [monoB]. *)
Lemma append_then_discard_counterexample :
  channels monoA = channels monoB /\ frameRate monoA = frameRate monoB
  /\ getFrameCount monoB = Ret 1 monoB
  /\ exists a1 a2,
       append monoB monoA = Ret tt a1
       /\ discardFramesFromFront 1 a1 = Ret tt a2
       /\ samples a2 = [f2] /\ samples a2 <> samples monoA.
Proof.
  split; [reflexivity|]. split; [reflexivity|]. split; [reflexivity|].
  exists (mkAudioData [f1; f2] 1 44100 0 0), (mkAudioData [f2] 1 44100 0 0).
  split; [reflexivity|]. split; [reflexivity|]. split; [reflexivity|discriminate].
Qed.

(** C4, as the code has it. For two buffers with the same channel count (at
    least one) and frame rate, whose samples together fit an [unsigned int],
    and with [f] the frame count of the second: [append] followed by
    [discardFramesFromFront f] returns and leaves the concatenation without
    its first [f] frames, which are frames of the receiver; it is [prepend]
    followed by [discardFramesFromFront f] that gives the receiver back as
    it was, when the second buffer holds whole frames. *)
Theorem merge_then_discard (a b : AudioData) :
  1 <= channels a -> channels b = channels a -> frameRate b = frameRate a ->
  size (samples a) + size (samples b) < UInt.modulus ->
  let f := sampleCount b / channels b in
  getFrameCount b = Ret f b
  /\ (exists a1 a2,
        append b a = Ret tt a1 /\ discardFramesFromFront f a1 = Ret tt a2
        /\ samples a2 = drop (Z.to_nat (f * channels a)) (samples a ++ samples b))
  /\ (size (samples b) mod channels b = 0 ->
      exists a1 a2,
        prepend b a = Ret tt a1 /\ discardFramesFromFront f a1 = Ret tt a2
        /\ samples a2 = samples a /\ a2 = a).
Proof.
  intros Hc Hcb Hrb Hs f.
  pose proof (size_nonneg (samples a)) as Ha. pose proof (size_nonneg (samples b)) as Hb.
  assert (Hcount : sampleCount b = size (samples b)).
  { unfold sampleCount. apply wrap_small. lia. }
  assert (Hf : 0 <= f <= (size (samples a) + size (samples b)) / channels a).
  { unfold f. rewrite Hcount, Hcb. split.
    - apply Z.div_pos; lia.
    - apply Z.div_le_mono; lia. }
  split; [apply getFrameCount_returns; lia|]. split.
  - eexists _, _. split; [apply append_returns; auto; lia|].
    split.
    + apply discardFramesFromFront_returns; cbn; [assumption| |].
      * unfold size in *. rewrite length_app. lia.
      * unfold size in *. rewrite length_app, Nat2Z.inj_add. exact Hf.
    + reflexivity.
  - intros Hwhole. eexists _, _. split; [apply prepend_returns; auto; lia|].
    assert (Hfc : f * channels a = size (samples b)).
    { unfold f. rewrite Hcount, Hcb in *.
      rewrite (Z.div_mod (size (samples b)) (channels a)) at 2 by lia. lia. }
    assert (Hdrop : drop (Z.to_nat (f * channels a)) (samples b ++ samples a) = samples a).
    { rewrite Hfc. unfold size. rewrite Nat2Z.id. apply drop_app_length. }
    split; [|split].
    + apply discardFramesFromFront_returns; cbn; [assumption| |].
      * unfold size in *. rewrite length_app. lia.
      * unfold size in *. rewrite length_app, Nat2Z.inj_add, Z.add_comm. exact Hf.
    + cbn. exact Hdrop.
    + cbn. rewrite Hdrop. now destruct a.
Qed.

Lemma merge_then_discard_witness :
  exists a1 a2,
    prepend monoB monoA = Ret tt a1 /\ discardFramesFromFront 1 a1 = Ret tt a2
    /\ samples a2 = samples monoA /\ a2 = monoA.
Proof.
  destruct (merge_then_discard monoA monoB) as (_ & _ & H).
  - cbn. lia.
  - reflexivity.
  - reflexivity.
  - reflexivity.
  - apply H. reflexivity.
Defined.

(** ** Downsampling *)

(** C2 at its own example: [downsample(2, false)] on the monophonic samples
    2, 3, 6, 7 at frame rate 44100 returns with the samples 2 and 5 at frame
    rate 22050, not with the means 2.5 and 6.5. The running value is divided
    by the factor after every sample of a block: a block [x, y] gives
    ((0 + x) / 2 + y) / 2. *)
Theorem downsample_divides_at_each_sample :
  downsample 2 2 false mono4 = Ret tt (mkAudioData [f2; f5] 1 22050 0 0)
  /\ [f2; f5] <> [f2_5; f6_5]
  /\ forall x y : float,
       downsample 1 2 false (mkAudioData [x; y] 1 44100 0 0)
       = Ret tt (mkAudioData
                   [F32.div (F32.add (F32.div (F32.add F32.zero x) f2) y) f2]
                   1 22050 0 0).
Proof. split; [reflexivity | split; [discriminate | reflexivity]]. Qed.

(** ** Reduction to mono *)

Lemma size_app (l1 l2 : list float) : size (l1 ++ l2) = size l1 + size l2.
Proof. unfold size. rewrite length_app. lia. Qed.

Lemma size_cons (x : float) (l : list float) : size (x :: l) = 1 + size l.
Proof. unfold size. cbn [length]. lia. Qed.

Lemma deref_middle (l1 : list float) (x : float) (l2 : list float) :
  deref (l1 ++ x :: l2) (size l1) = Some x.
Proof.
  destruct (deref_in_range (l1 ++ x :: l2) (size l1)) as (v & -> & Hv).
  - rewrite size_app, size_cons.
    pose proof (size_nonneg l1). pose proof (size_nonneg l2). lia.
  - rewrite <- Hv. unfold size. rewrite Nat2Z.id. apply list_lookup_middle. reflexivity.
Qed.

Lemma store_middle (l1 : list float) (x : float) (l2 : list float) (v : float) :
  store (l1 ++ x :: l2) (size l1) v = Some (l1 ++ v :: l2).
Proof.
  rewrite store_in_range.
  - f_equal. unfold size. rewrite Nat2Z.id.
    replace (length l1) with (length l1 + 0)%nat by lia.
    now rewrite insert_app_r.
  - rewrite size_app, size_cons.
    pose proof (size_nonneg l1). pose proof (size_nonneg l2). lia.
Qed.








(** The scenario of the specification: four stereo frames reduce to the
    samples 2, 3, 6, 7. *)
Example reduceToMono_stereo4 : reduceToMono 4 stereo4 = Ret tt mono4.
Proof. reflexivity. Qed.

(** ** Termination of the decimation loop *)

Lemma boxcar_advances (factor : Z) (s : list float) :
  forall (n : nat) (r : Z) (mean : float),
    0 <= r ->
    exists r' m, boxcar n factor s r mean = Some (r', m)
                 /\ r <= r' /\ ((0 < n)%nat -> r < size s -> r + 1 <= r').
Proof.
  induction n as [|n IH]; intros r mean Hr.
  - exists r, mean. split; [reflexivity|]. split; [lia|]. intros H. inversion H.
  - cbn [boxcar]. destruct (Z.ltb_spec r (size s)) as [Hlt|Hge].
    + destruct (deref_in_range s r) as (v & -> & _); [lia|].
      destruct (IH (r + 1) (F32.div (F32.add mean v) (F32.of_uint factor)))
        as (r' & m & -> & Hle & _); [lia|].
      exists r', m. split; [reflexivity|]. lia.
    + destruct (IH r (F32.div mean (F32.of_uint factor))) as (r' & m & -> & Hle & _);
        [lia|].
      exists r', m. split; [reflexivity|]. lia.
Qed.

Lemma advance_some (s : list float) (i n : Z) :
  0 <= i + n <= size s -> advance s i n = Some (i + n).
Proof.
  intros H. unfold advance.
  destruct (Z.leb_spec 0 (i + n)); [|lia].
  now destruct (Z.leb_spec (i + n) (size s)); [|lia].
Qed.

Lemma advance_none (s : list float) (i n : Z) :
  size s < i + n -> advance s i n = None.
Proof.
  intros H. unfold advance.
  destruct (Z.leb_spec (i + n) (size s)); [lia|]. now rewrite andb_false_r.
Qed.

Lemma advance_inv (s : list float) (i n r : Z) :
  advance s i n = Some r -> r = i + n /\ 0 <= r <= size s.
Proof.
  unfold advance. destruct (Z.leb_spec 0 (i + n)); [|discriminate].
  destruct (Z.leb_spec (i + n) (size s)); [|discriminate].
  intros [= <-]. lia.
Qed.

(** With a factor of at least one, an iteration of the block loop is
    defined, moves [readAt] forward, not behind the end, and keeps [writeAt]
    at or before it. *)
Lemma boxcarBody_advances (factor : Z) (st : cursor) :
  1 <= factor -> 0 <= writeAt st <= readAt st -> reading st = true ->
  exists st', downsampleBody factor false st = Some st'
              /\ size (buf st') = size (buf st)
              /\ readAt st + 1 <= readAt st'
              /\ 0 <= writeAt st' <= readAt st'.
Proof.
  intros Hf Hw Hr. apply Z.ltb_lt in Hr. unfold downsampleBody.
  destruct (boxcar_advances factor (buf st) (Z.to_nat factor) (readAt st) F32.zero)
    as (r' & m & -> & Hle & Hadv); [lia|].
  rewrite store_in_range by lia. eexists. split; [reflexivity|].
  cbn [buf readAt writeAt]. split.
  - unfold size. now rewrite length_insert.
  - assert (readAt st + 1 <= r') by (apply Hadv; lia). lia.
Qed.

(** Without shortcut, and with a factor of at least one, the loop is left
    after at most as many iterations as there are samples from [readAt] to
    the end. *)
Lemma boxcar_loop_finishes (factor : Z) :
  1 <= factor ->
  forall (fuel : nat) (st : cursor),
    0 <= writeAt st <= readAt st -> size (buf st) - readAt st <= Z.of_nat fuel ->
    exists st', while fuel reading (downsampleBody factor false) st = Finished st'.
Proof.
  intros Hf. induction fuel as [|fuel IH]; intros st Hw Hfuel.
  - exists st. apply while_done. apply Z.ltb_ge. lia.
  - destruct (reading st) eqn:Hr.
    + destruct (boxcarBody_advances factor st Hf Hw Hr) as (st1 & Hb & Hs & Hadv & Hw1).
      rewrite (while_step _ _ _ _ _ Hr Hb). apply IH; [assumption|]. lia.
    + exists st. now apply while_done.
Qed.

(** With the shortcut, an iteration moves [readAt] by the factor, which is
    defined as long as that does not lead behind the end. *)
Lemma strideBody (factor : Z) (st : cursor) :
  0 <= writeAt st <= readAt st -> reading st = true ->
  (readAt st + factor <= size (buf st) -> 0 <= factor ->
   exists st', downsampleBody factor true st = Some st'
               /\ size (buf st') = size (buf st)
               /\ readAt st' = readAt st + factor
               /\ writeAt st' = writeAt st + 1)
  /\ (size (buf st) < readAt st + factor -> downsampleBody factor true st = None).
Proof.
  intros Hw Hr. apply Z.ltb_lt in Hr. unfold downsampleBody.
  destruct (deref_in_range (buf st) (readAt st)) as (v & -> & _); [lia|]. split.
  - intros Hin Hf. rewrite advance_some by lia. rewrite store_in_range by lia.
    eexists. split; [reflexivity|]. cbn [buf readAt writeAt].
    split; [|now split]. unfold size. now rewrite length_insert.
  - intros Hout. now rewrite advance_none.
Qed.

(** With the shortcut, and a factor of at least one, the loop is over after
    at most as many iterations as there are samples from [readAt] to the
    end: it is left when their number is a multiple of the factor, and
    otherwise its last iteration moves [readAt] behind the end. *)
Lemma stride_loop_ends (factor : Z) :
  1 <= factor ->
  forall (fuel : nat) (st : cursor),
    0 <= writeAt st <= readAt st -> readAt st <= size (buf st) ->
    size (buf st) - readAt st <= Z.of_nat fuel ->
    ((size (buf st) - readAt st) mod factor = 0 ->
     exists st', while fuel reading (downsampleBody factor true) st = Finished st')
    /\ ((size (buf st) - readAt st) mod factor <> 0 ->
        while fuel reading (downsampleBody factor true) st = Stuck).
Proof.
  intros Hf. induction fuel as [|fuel IH]; intros st Hw Hle Hfuel.
  - assert (Heq : size (buf st) - readAt st = 0) by lia. rewrite Heq. split.
    + intros _. exists st. apply while_done. apply Z.ltb_ge. lia.
    + intros H. now rewrite Z.mod_0_l in H by lia.
  - destruct (reading st) eqn:Hr.
    + pose proof Hr as Hlt. apply Z.ltb_lt in Hlt.
      destruct (strideBody factor st Hw Hr) as (Hin & Hout).
      destruct (Z.le_gt_cases (readAt st + factor) (size (buf st))) as [Hfit|Hover].
      * destruct (Hin Hfit ltac:(lia)) as (st1 & Hb & Hs & Hr1 & Hw1).
        rewrite (while_step _ _ _ _ _ Hr Hb).
        assert (Hmod : (size (buf st1) - readAt st1) mod factor
                       = (size (buf st) - readAt st) mod factor).
        { rewrite Hs, Hr1.
          replace (size (buf st) - (readAt st + factor))
            with (size (buf st) - readAt st + (-1) * factor) by lia.
          apply Z.mod_add. lia. }
        rewrite <- Hmod. apply IH; lia.
      * rewrite (while_stuck _ _ _ _ Hr (Hout Hover)). split; [|reflexivity].
        intros Hmod. exfalso.
        rewrite Z.mod_small in Hmod by lia. lia.
    + apply Z.ltb_ge in Hr. assert (Heq : size (buf st) - readAt st = 0) by lia.
      rewrite Heq. split.
      * intros _. exists st. apply while_done. apply Z.ltb_ge. lia.
      * intros H. now rewrite Z.mod_0_l in H by lia.
Qed.

(** With the factor 0 an iteration leaves [readAt] where it is; it is defined
    as long as [writeAt] is inside the deque. *)
Lemma downsampleBody_zero (shortcut : bool) (st : cursor) :
  readAt st = 0 -> 0 < size (buf st) ->
  (0 <= writeAt st < size (buf st) ->
   exists st', downsampleBody 0 shortcut st = Some st'
               /\ readAt st' = 0 /\ writeAt st' = writeAt st + 1
               /\ size (buf st') = size (buf st))
  /\ (size (buf st) <= writeAt st -> downsampleBody 0 shortcut st = None)
  /\ (forall st', downsampleBody 0 shortcut st = Some st' ->
                  readAt st' = 0 /\ size (buf st') = size (buf st)).
Proof.
  intros Hr Hs. unfold downsampleBody. rewrite Hr.
  assert (Hstep : (if shortcut
                   then match deref (buf st) 0 with
                        | Some v =>
                            match advance (buf st) 0 0 with
                            | Some r => Some (r, v)
                            | None => None
                            end
                        | None => None
                        end
                   else boxcar (Z.to_nat 0) 0 (buf st) 0 F32.zero)
                  = Some (0, if shortcut
                             then default F32.zero (deref (buf st) 0)
                             else F32.zero)).
  { destruct shortcut; [|reflexivity].
    destruct (deref_in_range (buf st) 0) as (v & -> & _); [lia|].
    now rewrite advance_some by lia. }
  rewrite Hstep. split; [|split].
  - intros Hw. rewrite store_in_range by lia. eexists. split; [reflexivity|].
    cbn [buf readAt writeAt]. repeat split. unfold size. now rewrite length_insert.
  - intros Hw. unfold store.
    destruct (Z.ltb_spec (writeAt st) (size (buf st))); [lia|].
    now rewrite andb_false_r.
  - intros st'. destruct (store _ _ _) as [s'|] eqn:Hst; [|discriminate].
    intros [= <-]. cbn [buf readAt]. split; [reflexivity|].
    eapply store_size; eassumption.
Qed.

Lemma downsample_zero_iterates (shortcut : bool) :
  forall (k : nat) (st st' : cursor),
    readAt st = 0 -> 0 < size (buf st) ->
    iterate k (downsampleBody 0 shortcut) st = Some st' ->
    readAt st' = 0 /\ reading st' = true.
Proof.
  induction k as [|k IH]; intros st st' Hr Hs; cbn [iterate].
  - intros [= <-]. split; [assumption|]. unfold reading. apply Z.ltb_lt. lia.
  - destruct (downsampleBody 0 shortcut st) as [st1|] eqn:Hb; [|discriminate].
    destruct (downsampleBody_zero shortcut st Hr Hs) as (_ & _ & H).
    destruct (H st1 Hb) as (Hr1 & Hs1). apply IH; [assumption | lia].
Qed.

Lemma downsample_zero_running (shortcut : bool) :
  forall (k : nat) (st : cursor),
    readAt st = 0 -> 0 <= writeAt st -> writeAt st + Z.of_nat k <= size (buf st) ->
    0 < size (buf st) ->
    while k reading (downsampleBody 0 shortcut) st = Running.
Proof.
  induction k as [|k IH]; intros st Hr Hw Hk Hs.
  - cbn. unfold reading. rewrite Hr. now destruct (Z.ltb_spec 0 (size (buf st))); [|lia].
  - destruct (downsampleBody_zero shortcut st Hr Hs) as (H & _ & _).
    destruct H as (st1 & Hb & Hr1 & Hw1 & Hs1); [lia|].
    rewrite (while_step _ _ _ _ st1); [|unfold reading; rewrite Hr; apply Z.ltb_lt; lia|assumption].
    apply IH; lia.
Qed.

Lemma downsample_zero_stuck (shortcut : bool) :
  forall (k extra : nat) (st : cursor),
    readAt st = 0 -> 0 <= writeAt st -> writeAt st + Z.of_nat k = size (buf st) ->
    0 < size (buf st) ->
    while (k + S extra) reading (downsampleBody 0 shortcut) st = Stuck.
Proof.
  induction k as [|k IH]; intros extra st Hr Hw Hk Hs.
  - destruct (downsampleBody_zero shortcut st Hr Hs) as (_ & H & _).
    apply while_stuck; [unfold reading; rewrite Hr; apply Z.ltb_lt; lia|].
    apply H. lia.
  - destruct (downsampleBody_zero shortcut st Hr Hs) as (H & _ & _).
    destruct H as (st1 & Hb & Hr1 & Hw1 & Hs1); [lia|].
    cbn [Nat.add].
    rewrite (while_step _ _ _ _ st1); [|unfold reading; rewrite Hr; apply Z.ltb_lt; lia|assumption].
    apply IH; lia.
Qed.

Lemma downsample_of_loop (fuel : nat) (factor : Z) (shortcut : bool) (a : AudioData) :
  factor <> 1 -> channels a <= 1 ->
  (downsampleLoop fuel factor shortcut (samples a) = Running ->
   downsample fuel factor shortcut a = OutOfFuel)
  /\ (downsampleLoop fuel factor shortcut (samples a) = Stuck ->
      downsample fuel factor shortcut a = Undefined)
  /\ (downsampleLoop fuel factor shortcut (samples a) <> Running ->
      downsample fuel factor shortcut a <> OutOfFuel).
Proof.
  intros Hf Hc. unfold downsample.
  destruct (Z.eqb_spec factor 1); [contradiction|]. unfold bind, gets.
  destruct (Z.gtb_spec (channels a) 1); [lia|].
  split; [|split].
  - intros ->. reflexivity.
  - intros ->. reflexivity.
  - intros Hrun. destruct (downsampleLoop fuel factor shortcut (samples a)) as [st| |];
      [|discriminate|contradiction]. cbn [of_loop ret modify].
    unfold getSampleCount, gets, defined.
    destruct (F32.ceil_to_size _); [|discriminate]. cbn [ret modify].
    unfold getFrameRate, gets. destruct (UInt.div _ _) as [q|]; [|discriminate].
    cbn [ret]. unfold setFrameRate. destruct (q <? 1); discriminate.
Qed.

(** C9 as it is written fails. With the factor 0 the loop does not run
    for ever: after one iteration for each sample, the next one writes
    through [writeAt] behind the end of the deque, which has no defined
    behaviour. And a factor of at least one does not make every call end:
    with the shortcut, on three samples and the factor 2, the second
    iteration moves [readAt] behind the end, which has no defined behaviour
    either. *)
Lemma downsample_never_ending_counterexample :
  channels mono4 <= 1 /\ samples mono4 <> []
  /\ downsampleLoop 5 0 true (samples mono4) = Stuck
  /\ downsampleLoop 5 0 false (samples mono4) = Stuck
  /\ downsample 5 0 true mono4 = Undefined
  /\ downsample 5 0 false mono4 = Undefined
  /\ ~ (forall fuel : nat, downsample fuel 0 true mono4 = OutOfFuel)
  /\ ~ (forall fuel : nat, downsample fuel 0 false mono4 = OutOfFuel)
  /\ channels mono3 <= 1
  /\ downsampleLoop 2 2 true (samples mono3) = Stuck
  /\ downsample 2 2 true mono3 = Undefined.
Proof.
  split; [cbn; lia|]. split; [discriminate|].
  do 4 (split; [reflexivity|]).
  split; [|split; [|split; [cbn; lia|split; reflexivity]]].
  - intros H. specialize (H 5%nat). discriminate H.
  - intros H. specialize (H 5%nat). discriminate H.
Qed.

(** C9, as the code has it. With a factor of at least one, and either
    without the shortcut or with a sample count that is a multiple of the
    factor, the decimation loop of [downsample] is left after at most as
    many iterations as the buffer has samples, and the call does not run on.
    With the factor 0, at most one channel and a sample stored, no iteration
    moves [readAt] from the start of the deque and the loop condition holds
    after every iteration, so that the loop is never left; it does not run
    for ever either: it is still running after any number of iterations up
    to the sample count, and the next iteration writes behind the end of the
    deque, which has no defined behaviour. The call neither returns nor
    throws. *)
Theorem downsample_loop_ends (a : AudioData) :
  (forall (factor : Z) (shortcut : bool) (fuel : nat),
      1 <= factor -> (shortcut = true -> size (samples a) mod factor = 0) ->
      (length (samples a) <= fuel)%nat ->
      (exists st, downsampleLoop fuel factor shortcut (samples a) = Finished st)
      /\ downsample fuel factor shortcut a <> OutOfFuel)
  /\ (channels a <= 1 -> samples a <> [] ->
      forall shortcut : bool,
        (forall (k : nat) (st : cursor),
            iterate k (downsampleBody 0 shortcut) (mkCursor (samples a) 0 0) = Some st ->
            readAt st = 0 /\ reading st = true)
        /\ (forall (fuel : nat) (st : cursor),
               downsampleLoop fuel 0 shortcut (samples a) <> Finished st)
        /\ (forall fuel : nat, (fuel <= length (samples a))%nat ->
               downsample fuel 0 shortcut a = OutOfFuel)
        /\ (forall fuel : nat, (length (samples a) < fuel)%nat ->
               downsample fuel 0 shortcut a = Undefined)).
Proof.
  pose proof (size_nonneg (samples a)) as H0. split.
  - intros factor shortcut fuel Hf Hmod Hfuel.
    assert (Hfin : exists st, downsampleLoop fuel factor shortcut (samples a) = Finished st).
    { destruct shortcut.
      - destruct (stride_loop_ends factor Hf fuel (mkCursor (samples a) 0 0))
          as (Hfin & _).
        + cbn. lia.
        + cbn [buf readAt]. lia.
        + cbn [buf readAt]. unfold size. lia.
        + cbn [buf readAt] in Hfin. rewrite Z.sub_0_r in Hfin. now apply Hfin, Hmod.
      - apply (boxcar_loop_finishes factor Hf fuel (mkCursor (samples a) 0 0)).
        + cbn. lia.
        + cbn [buf readAt]. unfold size. lia. }
    split; [exact Hfin|].
    destruct (Z.eq_dec factor 1) as [->|Hne]; [discriminate|].
    destruct (Z.le_gt_cases (channels a) 1) as [Hc|Hc].
    2:{ unfold downsample, bind, gets, throw.
        destruct (Z.eqb_spec factor 1); [contradiction|].
        destruct (Z.gtb_spec (channels a) 1); [discriminate|lia]. }
    apply (downsample_of_loop fuel factor shortcut a Hne Hc).
    destruct Hfin as (st & Hst). rewrite Hst. discriminate.
  - intros Hc Hne shortcut.
    assert (Hs : 0 < size (samples a)).
    { unfold size. destruct (samples a); [congruence | cbn; lia]. }
    split; [|split; [|split]].
    + intros k st. now apply downsample_zero_iterates.
    + intros fuel st Hfin.
      apply (while_invariant (fun st => readAt st = 0 /\ 0 < size (buf st))) in Hfin.
      * destruct Hfin as ((Hr & Hs') & Hcond). unfold reading in Hcond.
        rewrite Hr in Hcond. apply Z.ltb_ge in Hcond. lia.
      * intros s s' (Hr & Hs') _ Hb.
        destruct (downsampleBody_zero shortcut s Hr Hs') as (_ & _ & H).
        destruct (H s' Hb). split; [assumption | lia].
      * now split.
    + intros fuel Hfuel.
      apply (downsample_of_loop fuel 0 shortcut a); [discriminate|exact Hc|].
      apply downsample_zero_running; cbn [buf readAt writeAt]; try lia.
      unfold size. lia.
    + intros fuel Hfuel.
      apply (downsample_of_loop fuel 0 shortcut a); [discriminate|exact Hc|].
      replace fuel with (length (samples a) + S (fuel - S (length (samples a))))%nat by lia.
      apply downsample_zero_stuck; cbn [buf readAt writeAt]; try lia.
      unfold size. lia.
Qed.

Lemma downsample_loop_ends_witness :
  ((exists st, downsampleLoop 4 2 false (samples mono4) = Finished st)
   /\ downsample 4 2 false mono4 <> OutOfFuel)
  /\ ((exists st, downsampleLoop 4 2 true (samples mono4) = Finished st)
      /\ downsample 4 2 true mono4 <> OutOfFuel)
  /\ downsample 4 0 false mono4 = OutOfFuel
  /\ downsample 5 0 true mono4 = Undefined.
Proof.
  destruct (downsample_loop_ends mono4) as (Hpos & Hzero).
  split; [|split; [|split]].
  - apply (Hpos 2 false 4%nat); [lia | discriminate | apply Nat.leb_le; reflexivity].
  - apply (Hpos 2 true 4%nat); [lia | reflexivity | apply Nat.leb_le; reflexivity].
  - destruct (Hzero ltac:(cbn; lia) ltac:(discriminate) false) as (_ & _ & Hrun & _).
    apply Hrun. apply Nat.leb_le. reflexivity.
  - destruct (Hzero ltac:(cbn; lia) ltac:(discriminate) true) as (_ & _ & _ & Hstuck).
    apply Hstuck. apply Nat.leb_le. reflexivity.
Defined.

(** ** Finite samples *)

Section Preservation.

Context {A B : Type}.

Lemma preserves_ret (v : A) (Q : A -> Prop) : Q v -> preserves (ret v) Q.
Proof. intros Hv a Ha. now split. Qed.

Lemma preserves_throw (e : Exception) (Q : A -> Prop) : preserves (throw e) Q.
Proof. intros a Ha. exact Ha. Qed.

Lemma preserves_defined (o : option A) (Q : A -> Prop) :
  (forall v, o = Some v -> Q v) -> preserves (defined o) Q.
Proof. intros H a Ha. destruct o as [v|]; cbn; [split; auto | exact I]. Qed.

Lemma preserves_gets (f : AudioData -> A) (Q : A -> Prop) :
  (forall a, finite_samples a -> Q (f a)) -> preserves (gets f) Q.
Proof. intros H a Ha. split; auto. Qed.

Lemma preserves_bind (Q : A -> Prop) (m : M A) (k : A -> M B) (R : B -> Prop) :
  preserves m Q -> (forall v, Q v -> preserves (k v) R) -> preserves (bind m k) R.
Proof.
  intros Hm Hk a Ha. unfold bind. specialize (Hm a Ha).
  destruct (m a) as [v a'|e a'| |]; try exact Hm; [].
  destruct Hm as (Ha' & Hv). exact (Hk v Hv a' Ha').
Qed.

Lemma preserves_weaken (m : M A) (Q R : A -> Prop) :
  preserves m Q -> (forall v, Q v -> R v) -> preserves m R.
Proof.
  intros Hm HQR a Ha. specialize (Hm a Ha).
  destruct (m a); try exact Hm. destruct Hm. split; auto.
Qed.

End Preservation.

Lemma preserves_modify (f : AudioData -> AudioData) :
  (forall a, finite_samples a -> finite_samples (f a)) ->
  preserves (modify f) (fun _ => True).
Proof. intros H a Ha. split; auto. Qed.

Lemma preserves_of_loop {S : Type} (r : loop_result S) (Q : S -> Prop) :
  (forall s, r = Finished s -> Q s) -> preserves (of_loop r) Q.
Proof. intros H a Ha. destruct r; cbn; [split; auto | exact I | exact I]. Qed.

Lemma finite_deref (s : list float) (i : Z) (v : float) :
  Forall finite s -> deref s i = Some v -> finite v.
Proof.
  intros Hs. unfold deref. destruct (_ && _); [|discriminate].
  intros Hl. exact (proj1 (Forall_lookup _ _) Hs _ _ Hl).
Qed.

Lemma finite_store (s s' : list float) (i : Z) (v : float) :
  Forall finite s -> finite v -> store s i v = Some s' -> Forall finite s'.
Proof.
  intros Hs Hv. unfold store. destruct (_ && _); [|discriminate].
  intros [= <-]. now apply Forall_insert.
Qed.

Lemma finite_resize (s : list float) (n : Z) :
  Forall finite s -> Forall finite (resize n F32.zero s).
Proof.
  intros Hs. unfold resize. apply Forall_app. split.
  - now apply Forall_take.
  - now apply Forall_replicate.
Qed.

Lemma finite_erase_front (s s' : list float) (n : Z) :
  Forall finite s -> erase_front n s = Some s' -> Forall finite s'.
Proof.
  intros Hs. unfold erase_front. destruct (_ && _); [|discriminate].
  intros [= <-]. now apply Forall_drop.
Qed.

Lemma preserves_setChannels (n : Z) : preserves (setChannels n) (fun _ => True).
Proof.
  unfold setChannels. destruct (n <? 1); [apply preserves_throw|].
  apply preserves_modify. auto.
Qed.

Lemma preserves_setFrameRate (n : Z) : preserves (setFrameRate n) (fun _ => True).
Proof.
  unfold setFrameRate. destruct (n <? 1); [apply preserves_throw|].
  apply preserves_modify. auto.
Qed.

Lemma preserves_getSampleCount : preserves getSampleCount (fun _ => True).
Proof. apply preserves_gets. auto. Qed.

Lemma preserves_getFrameCount : preserves getFrameCount (fun _ => True).
Proof.
  unfold getFrameCount. apply (preserves_bind (fun _ => True)).
  - apply preserves_gets. auto.
  - intros c _. destruct (c <? 1); [apply preserves_throw|].
    apply (preserves_bind (fun _ => True)); [apply preserves_getSampleCount|].
    intros. now apply preserves_ret.
Qed.

Lemma preserves_samples : preserves (gets samples) (Forall finite).
Proof. apply preserves_gets. auto. Qed.

Lemma preserves_set_samples (s : list float) :
  Forall finite s -> preserves (modify (set_samples s)) (fun _ => True).
Proof. intros Hs. apply preserves_modify. intros a _. exact Hs. Qed.

Lemma preserves_adopt (that : AudioData) : preserves (adopt that) (fun _ => True).
Proof.
  intros a Ha. unfold adopt. destruct (_ && _); split; auto.
Qed.

Lemma preserves_append (that : AudioData) :
  finite_samples that -> preserves (append that) (fun _ => True).
Proof.
  intros Ht. unfold append.
  apply (preserves_bind (fun _ => True)); [apply preserves_adopt|]. intros _ _.
  apply (preserves_bind (fun _ => True)); [apply preserves_gets; auto|]. intros c _.
  destruct (negb _); [apply preserves_throw|].
  apply (preserves_bind (fun _ => True)); [apply preserves_gets; auto|]. intros r _.
  destruct (negb _); [apply preserves_throw|].
  apply preserves_modify. intros a Ha. apply Forall_app. now split.
Qed.

Lemma preserves_prepend (that : AudioData) :
  finite_samples that -> preserves (prepend that) (fun _ => True).
Proof.
  intros Ht. unfold prepend.
  apply (preserves_bind (fun _ => True)); [apply preserves_adopt|]. intros _ _.
  apply (preserves_bind (fun _ => True)); [apply preserves_gets; auto|]. intros c _.
  destruct (negb _); [apply preserves_throw|].
  apply (preserves_bind (fun _ => True)); [apply preserves_gets; auto|]. intros r _.
  destruct (negb _); [apply preserves_throw|].
  apply preserves_modify. intros a Ha. apply Forall_app. now split.
Qed.

Lemma preserves_setSample (index : Z) (value : float) :
  preserves (setSample index value) (fun _ => True).
Proof.
  unfold setSample.
  apply (preserves_bind (fun _ => True)); [apply preserves_getSampleCount|]. intros n _.
  destruct (index >=? n).
  { apply (preserves_bind (fun _ => True)); [apply preserves_getSampleCount|].
    intros. apply preserves_throw. }
  destruct (F32.isfinite value) eqn:Hv; cbn [negb]; [|apply preserves_throw].
  apply (preserves_bind (Forall finite)); [apply preserves_samples|]. intros s Hs.
  apply (preserves_bind (Forall finite)).
  - apply preserves_defined. intros s' Hs'. eapply finite_store; eassumption.
  - intros s' Hs'. now apply preserves_set_samples.
Qed.

Lemma preserves_setSampleByFrame (frame channel : Z) (value : float) :
  preserves (setSampleByFrame frame channel value) (fun _ => True).
Proof.
  unfold setSampleByFrame.
  apply (preserves_bind (fun _ => True)); [apply preserves_getFrameCount|]. intros f _.
  destruct (frame >=? f).
  { apply (preserves_bind (fun _ => True)); [apply preserves_getFrameCount|].
    intros. apply preserves_throw. }
  apply (preserves_bind (fun _ => True)); [apply preserves_gets; auto|]. intros c _.
  destruct (channel >=? c); [apply preserves_throw|]. apply preserves_setSample.
Qed.

Lemma preserves_addToSampleCount (n : Z) : preserves (addToSampleCount n) (fun _ => True).
Proof.
  unfold addToSampleCount.
  apply (preserves_bind (fun _ => True)); [apply preserves_getSampleCount|]. intros k _.
  apply preserves_modify. intros a Ha. now apply finite_resize.
Qed.

Lemma preserves_addToFrameCount (n : Z) : preserves (addToFrameCount n) (fun _ => True).
Proof.
  unfold addToFrameCount.
  apply (preserves_bind (fun _ => True)); [apply preserves_gets; auto|]. intros c _.
  destruct (c <? 1); [apply preserves_throw|]. apply preserves_addToSampleCount.
Qed.

Lemma preserves_discardFramesFromFront (n : Z) :
  preserves (discardFramesFromFront n) (fun _ => True).
Proof.
  unfold discardFramesFromFront.
  apply (preserves_bind (fun _ => True)); [apply preserves_getFrameCount|]. intros f _.
  destruct (n >? f).
  { apply (preserves_bind (fun _ => True)); [apply preserves_getFrameCount|].
    intros. apply preserves_throw. }
  apply (preserves_bind (fun _ => True)); [apply preserves_gets; auto|]. intros c _.
  apply (preserves_bind (Forall finite)); [apply preserves_samples|]. intros s Hs.
  apply (preserves_bind (Forall finite)).
  - apply preserves_defined. intros s' Hs'. eapply finite_erase_front; eassumption.
  - intros s' Hs'. now apply preserves_set_samples.
Qed.

Lemma preserves_on {A} (that : AudioData) (m : M A) (Q : A -> Prop) :
  finite_samples that -> preserves m Q ->
  preserves (on that m) (fun p => Q (fst p) /\ finite_samples (snd p)).
Proof.
  intros Ht Hm a Ha. unfold on. specialize (Hm that Ht).
  destruct (m that) as [v that'|e that'| |]; auto. cbn. tauto.
Qed.

Lemma sliceBody_finite (s : list float) (st st' : cursor) :
  Forall finite s -> Forall finite (buf st) -> sliceBody s st = Some st' ->
  Forall finite (buf st').
Proof.
  intros Hs Hb. unfold sliceBody.
  destruct (deref s (readAt st)) as [v|] eqn:Hv; [|discriminate].
  destruct (store (buf st) (writeAt st) v) as [t'|] eqn:Ht; [|discriminate].
  intros [= <-]. cbn. eapply finite_store; [exact Hb| |exact Ht].
  eapply finite_deref; [exact Hs | exact Hv].
Qed.

Lemma preserves_sliceSamplesFromBack (fuel : nat) (n : Z) :
  preserves (sliceSamplesFromBack fuel n) finite_samples.
Proof.
  unfold sliceSamplesFromBack.
  apply (preserves_bind (fun _ => True)); [apply preserves_getSampleCount|]. intros k _.
  destruct (n >? k).
  { apply (preserves_bind (fun _ => True)); [apply preserves_getSampleCount|].
    intros. apply preserves_throw. }
  apply (preserves_bind (fun _ => True)); [apply preserves_gets; auto|]. intros c _.
  apply (preserves_bind (fun _ => True)); [apply preserves_gets; auto|]. intros r _.
  eapply preserves_bind.
  { apply preserves_on; [|apply preserves_setFrameRate]. constructor. }
  intros p1 (_ & Hp1).
  eapply preserves_bind.
  { apply preserves_on; [exact Hp1|apply preserves_addToSampleCount]. }
  intros p2 (_ & Hp2).
  apply (preserves_bind (Forall finite)); [apply preserves_samples|]. intros s Hs.
  apply (preserves_bind (fun _ => True)); [apply preserves_getSampleCount|]. intros k' _.
  apply (preserves_bind (fun st => Forall finite (buf st))).
  { apply preserves_of_loop. intros st Hst.
    apply (while_invariant (fun st => Forall finite (buf st))) in Hst.
    - apply Hst.
    - intros s0 s1 H0 _ Hb. exact (sliceBody_finite s s0 s1 Hs H0 Hb).
    - exact Hp2. }
  intros st Hst.
  apply (preserves_bind (fun _ => True)); [apply preserves_getSampleCount|]. intros k'' _.
  apply (preserves_bind (fun _ => True)).
  { apply preserves_modify. intros a Ha. now apply finite_resize. }
  intros _ _. apply preserves_ret. exact Hst.
Qed.

Lemma downsampleBody_finite (factor : Z) (st st' : cursor) :
  Forall finite (buf st) -> downsampleBody factor true st = Some st' ->
  Forall finite (buf st').
Proof.
  intros Hb. unfold downsampleBody.
  destruct (deref (buf st) (readAt st)) as [v|] eqn:Hv; [|discriminate].
  destruct (advance (buf st) (readAt st) factor) as [r|]; [|discriminate].
  destruct (store (buf st) (writeAt st) v) as [s'|] eqn:Hs; [|discriminate].
  intros [= <-]. cbn. eapply finite_store; [exact Hb| |exact Hs].
  eapply finite_deref; [exact Hb | exact Hv].
Qed.

(** Stride sampling copies stored samples. *)
Lemma preserves_downsample_shortcut (fuel : nat) (factor : Z) :
  preserves (downsample fuel factor true) (fun _ => True).
Proof.
  unfold downsample. destruct (factor =? 1); [now apply preserves_ret|].
  apply (preserves_bind (fun _ => True)); [apply preserves_gets; auto|]. intros c _.
  destruct (c >? 1); [apply preserves_throw|].
  apply (preserves_bind (Forall finite)); [apply preserves_samples|]. intros s Hs.
  apply (preserves_bind (fun st => Forall finite (buf st))).
  { apply preserves_of_loop. intros st Hst. unfold downsampleLoop in Hst.
    apply (while_invariant (fun st => Forall finite (buf st))) in Hst.
    - apply Hst.
    - intros s0 s1 H0 _ Hb. exact (downsampleBody_finite factor s0 s1 H0 Hb).
    - exact Hs. }
  intros st Hst.
  apply (preserves_bind (fun _ => True)); [now apply preserves_set_samples|]. intros _ _.
  apply (preserves_bind (fun _ => True)); [apply preserves_getSampleCount|]. intros n _.
  apply (preserves_bind (fun _ => True)); [now apply preserves_defined|]. intros k _.
  apply (preserves_bind (fun _ => True)).
  { apply preserves_modify. intros a Ha. now apply finite_resize. }
  intros _ _.
  apply (preserves_bind (fun _ => True)); [apply preserves_gets; auto|]. intros r _.
  apply (preserves_bind (fun _ => True)); [now apply preserves_defined|]. intros q _.
  apply preserves_setFrameRate.
Qed.

Lemma preserves_setSampleAtWriteIterator (value : float) :
  finite value -> preserves (setSampleAtWriteIterator value) (fun _ => True).
Proof.
  intros Hv. unfold setSampleAtWriteIterator.
  apply (preserves_bind (Forall finite)); [apply preserves_samples|]. intros s Hs.
  apply (preserves_bind (fun _ => True)); [apply preserves_gets; auto|]. intros i _.
  apply (preserves_bind (Forall finite)).
  - apply preserves_defined. intros s' Hs'. exact (finite_store s s' i value Hs Hv Hs').
  - intros s' Hs'. now apply preserves_set_samples.
Qed.

Lemma preserves_advanceReadIterator (by_ : Z) :
  preserves (advanceReadIterator by_) (fun _ => True).
Proof.
  unfold advanceReadIterator.
  apply (preserves_bind (fun _ => True)); [apply preserves_gets; auto|]. intros s _.
  apply (preserves_bind (fun _ => True)); [apply preserves_gets; auto|]. intros i _.
  apply (preserves_bind (fun _ => True)); [now apply preserves_defined|]. intros j _.
  apply preserves_modify. auto.
Qed.

Lemma preserves_advanceWriteIterator (by_ : Z) :
  preserves (advanceWriteIterator by_) (fun _ => True).
Proof.
  unfold advanceWriteIterator.
  apply (preserves_bind (fun _ => True)); [apply preserves_gets; auto|]. intros s _.
  apply (preserves_bind (fun _ => True)); [apply preserves_gets; auto|]. intros i _.
  apply (preserves_bind (fun _ => True)); [now apply preserves_defined|]. intros j _.
  apply preserves_modify. auto.
Qed.

Lemma preserves_nothing (m : M unit) :
  preserves m (fun _ => True) ->
  preserves (nothing m) (fun r => forall that, r = Some that -> finite_samples that).
Proof.
  intros Hm. unfold nothing. apply (preserves_bind (fun _ => True)); [exact Hm|].
  intros _ _. apply preserves_ret. discriminate.
Qed.

Lemma preserves_perform (fuel : nat) (c : call) :
  copying c -> (forall that, argument c = Some that -> finite_samples that) ->
  preserves (perform fuel c) (fun r => forall that, r = Some that -> finite_samples that).
Proof.
  intros Hc Harg. destruct c; cbn [perform copying] in *;
    try (apply preserves_nothing).
  - apply preserves_setChannels.
  - apply preserves_setFrameRate.
  - apply preserves_append. now apply Harg.
  - apply preserves_prepend. now apply Harg.
  - apply preserves_setSample.
  - apply preserves_setSampleByFrame.
  - apply preserves_addToSampleCount.
  - apply preserves_addToFrameCount.
  - contradiction.
  - subst shortcut. apply preserves_downsample_shortcut.
  - apply preserves_discardFramesFromFront.
  - apply (preserves_bind finite_samples); [apply preserves_sliceSamplesFromBack|].
    intros that Hthat. apply preserves_ret. now intros ? [= <-].
  - unfold resetIterators. apply (preserves_bind (fun _ => True)).
    + apply preserves_modify. auto.
    + intros _ _. apply preserves_modify. auto.
  - apply preserves_advanceReadIterator.
  - apply preserves_advanceWriteIterator.
  - now apply preserves_setSampleAtWriteIterator.
Qed.

Lemma perform_slice (fuel : nat) (c : call) (a that a' : AudioData) :
  perform fuel c a = Ret (Some that) a' ->
  exists n, c = SliceSamplesFromBack n /\ sliceSamplesFromBack fuel n a = Ret that a'.
Proof.
  destruct c; cbn [perform]; unfold nothing, bind, ret; intros H;
    try (match type of H with
         | context [match ?t with Ret _ _ => _ | _ => _ end] => destruct t
         end; discriminate).
  eexists. split; [reflexivity|].
  destruct (sliceSamplesFromBack fuel _ a); try discriminate.
  now injection H as <- <-.
Qed.

(** C3, as the code has it. Every sample of a buffer is finite when the
    buffer is reached through calls other than [reduceToMono] and
    [downsample] without shortcut, and the values given to
    [setSampleAtWriteIterator] are finite: [setSample] and
    [setSampleByFrame] reject a value that is not finite, growth fills with
    zeros, and merging, discarding, slicing and stride sampling copy stored
    samples. *)
Theorem reachable_finite_samples (a : AudioData) :
  reachable copying a -> finite_samples a.
Proof.
  induction 1 as [|fuel c a r a' Ha IHa Hc Harg IHarg Hrun
                  |fuel c a e a' Ha IHa Hc Harg IHarg Hrun
                  |fuel c a that a' Ha IHa Hc Hrun].
  - constructor.
  - pose proof (preserves_perform fuel c Hc IHarg a IHa) as H.
    rewrite Hrun in H. exact (proj1 H).
  - pose proof (preserves_perform fuel c Hc IHarg a IHa) as H.
    rewrite Hrun in H. exact H.
  - destruct (perform_slice fuel c a that a' Hrun) as (n & -> & Hslice).
    pose proof (preserves_sliceSamplesFromBack fuel n a IHa) as H.
    rewrite Hslice in H. exact (proj2 H).
Qed.

Lemma reachable_performAll (allowed : call -> Prop) (fuel : nat) :
  forall (cs : list call) (a a' : AudioData),
    reachable allowed a -> Forall allowed cs ->
    Forall (fun c => argument c = None) cs ->
    performAll fuel cs a = Some a' -> reachable allowed a'.
Proof.
  induction cs as [|c cs IH]; intros a a' Ha Hall Harg; cbn [performAll].
  - now intros [= <-].
  - destruct (perform fuel c a) as [r a1| | |] eqn:Hrun; try discriminate.
    inversion Hall; subst. inversion Harg; subst.
    apply IH; try assumption.
    apply (reach_return allowed fuel c a r a1 Ha); [assumption| |exact Hrun].
    intros that Hthat. congruence.
Qed.

(** C3 as it is written fails. A value that is not finite is stored by
    [setSampleAtWriteIterator], which checks nothing; and from finite samples
    the sums of [reduceToMono] and of [downsample] without shortcut overflow
    to infinity. *)
Lemma finite_samples_counterexample :
  (exists a, performAll 0 writeNaN empty = Some a /\ reachable every a
             /\ samples a = [S754_nan] /\ ~ finite_samples a)
  /\ (exists a, performAll 1 overflowMono empty = Some a /\ reachable every a
                /\ samples a = [S754_infinity false] /\ ~ finite_samples a)
  /\ (exists a, performAll 1 overflowBoxcar empty = Some a /\ reachable every a
                /\ samples a = [S754_infinity false] /\ ~ finite_samples a).
Proof.
  assert (Hevery : forall cs, Forall every cs) by (intros cs; now apply Forall_forall).
  assert (Hrun : forall fuel cs a,
             Forall (fun c => argument c = None) cs ->
             performAll fuel cs empty = Some a -> reachable every a).
  { intros fuel cs a Harg H.
    exact (reachable_performAll every fuel cs empty a (reach_empty every) (Hevery cs) Harg H). }
  split; [|split].
  - exists (mkAudioData [S754_nan] 0 0 0 0). split; [reflexivity|]. split; [|split].
    + apply (Hrun 0%nat writeNaN); [repeat constructor | reflexivity].
    + reflexivity.
    + intros H. inversion H; subst. discriminate.
  - exists (mkAudioData [S754_infinity false] 1 44100 0 0).
    split; [reflexivity|]. split; [|split].
    + apply (Hrun 1%nat overflowMono); [repeat constructor | reflexivity].
    + reflexivity.
    + intros H. inversion H; subst. discriminate.
  - exists (mkAudioData [S754_infinity false] 1 22050 0 0).
    split; [reflexivity|]. split; [|split].
    + apply (Hrun 1%nat overflowBoxcar); [repeat constructor | reflexivity].
    + reflexivity.
    + intros H. inversion H; subst. discriminate.
Qed.

Lemma reachable_finite_samples_witness :
  finite_samples (mkAudioData [f3; F32.zero] 1 44100 0 0).
Proof.
  apply reachable_finite_samples.
  apply (reachable_performAll copying 0
           [SetChannels 1; SetFrameRate 44100; AddToFrameCount 2; SetSample 0 f2;
            ResetIterators; SetSampleAtWriteIterator f3] empty).
  - apply reach_empty.
  - repeat constructor.
  - repeat constructor.
  - reflexivity.
Defined.

(** ** Failure and the state of the object *)

(** X21. Apart from [downsample], a call that throws leaves the object as
    it was. *)
Lemma throw_keeps_state (fuel : nat) (c : call) (a a' : AudioData) (e : Exception) :
  (forall factor shortcut, c <> Downsample factor shortcut) ->
  perform fuel c a = Throw e a' -> a' = a.
Proof.
  intros Hc H. destruct c; cbn [perform] in H;
    try (exfalso; exact (Hc _ _ eq_refl));
    unfold setChannels, setFrameRate, append, prepend, setSampleByFrame, setSample,
      addToFrameCount, addToSampleCount, reduceToMono, discardFramesFromFront,
      sliceSamplesFromBack, resetIterators, advanceReadIterator, advanceWriteIterator,
      setSampleAtWriteIterator, setFrameRate, addToSampleCount in H;
    split_in H; run_in H; try discriminate H; try (now injection H as _ <-);
    match goal with
    | Hb : negb (_ =? _) = true |- _ =>
        cbn [channels frameRate set_channels set_frameRate] in Hb;
        rewrite Z.eqb_refl in Hb; discriminate Hb
    end.
Qed.

(** [downsample] keeps the object as it was when it refuses a buffer with
    more than one channel. *)
Lemma downsample_monophonic_only (fuel : nat) (factor : Z) (shortcut : bool) (a : AudioData) :
  factor <> 1 -> 1 < channels a ->
  downsample fuel factor shortcut a = Throw MonophonicOnly a.
Proof.
  intros Hf Hc. unfold downsample, bind, gets, throw.
  destruct (Z.eqb_spec factor 1); [contradiction|].
  now destruct (Z.gtb_spec (channels a) 1); [|lia].
Qed.

(** The buffer of the next theorem is one the interface builds. *)
Example mono4_slow_reachable :
  performAll 0 [SetChannels 1; SetFrameRate 1; AddToFrameCount 4; SetSample 0 f2;
                SetSample 1 f3; SetSample 2 f6; SetSample 3 f7] empty
  = Some mono4_slow.
Proof. reflexivity. Qed.

(** C1 at [downsample(2, true)] on a monophonic buffer whose frame rate is 1:
    the call throws from [setFrameRate] at its end, after the samples have
    been decimated and the deque has been shortened. *)
Theorem downsample_throws_after_writing :
  downsample 2 2 true mono4_slow
  = Throw NewFrameRateZero (mkAudioData [f2; f6] 1 1 0 0)
  /\ samples (mkAudioData [f2; f6] 1 1 0 0) <> samples mono4_slow.
Proof. split; [reflexivity | discriminate]. Qed.

(** * Further properties of the member functions *)

(** ** Reading back what was written *)

Lemma getSample_lookup (a : AudioData) (j : Z) (v : float) :
  0 <= j < sampleCount a ->
  getSample j a = Ret v a <-> samples a !! Z.to_nat j = Some v.
Proof.
  intros Hj. destruct (getSample_returns a j Hj) as (v0 & Hv0 & Hl).
  rewrite Hv0, Hl. split; intros [= ->]; reflexivity.
Qed.

(** X1. A [setSample] within bounds of a finite value returns; the sample
    count, the channels and the frame rate are as before; [getSample] at
    the same index then returns the value that was written, and at every
    other index within bounds what it returned before. *)
Theorem setSample_then_getSample (a : AudioData) (index : Z) (value : float) :
  0 <= index < sampleCount a -> F32.isfinite value = true ->
  exists a',
    setSample index value a = Ret tt a'
    /\ sampleCount a' = sampleCount a
    /\ channels a' = channels a /\ frameRate a' = frameRate a
    /\ getSample index a' = Ret value a'
    /\ (forall (j : Z) (v : float),
          0 <= j < sampleCount a -> j <> index ->
          getSample j a = Ret v a -> getSample j a' = Ret v a').
Proof.
  intros Hi Hv. pose proof (sampleCount_le_size a) as Hle.
  exists (set_samples (<[Z.to_nat index := value]> (samples a)) a).
  assert (Hcount : sampleCount (set_samples (<[Z.to_nat index := value]> (samples a)) a)
                   = sampleCount a).
  { unfold sampleCount, size. cbn [samples set_samples]. now rewrite length_insert. }
  split; [now apply setSample_returns|]. split; [exact Hcount|].
  split; [reflexivity|]. split; [reflexivity|]. split.
  - apply getSample_lookup; [rewrite Hcount; lia|]. cbn [samples set_samples].
    apply list_lookup_insert_eq. unfold size in Hle. lia.
  - intros j v Hj Hne Hget. apply getSample_lookup; [rewrite Hcount; lia|].
    apply getSample_lookup in Hget; [|lia]. cbn [samples set_samples].
    rewrite list_lookup_insert_ne; [exact Hget | lia].
Qed.

Lemma setSample_then_getSample_witness :
  exists a',
    setSample 1 f5 mono4 = Ret tt a'
    /\ sampleCount a' = sampleCount mono4
    /\ channels a' = channels mono4 /\ frameRate a' = frameRate mono4
    /\ getSample 1 a' = Ret f5 a'
    /\ (forall (j : Z) (v : float),
          0 <= j < sampleCount mono4 -> j <> 1 ->
          getSample j mono4 = Ret v mono4 -> getSample j a' = Ret v a').
Proof.
  apply (setSample_then_getSample mono4 1 f5).
  - split; [now apply Z.leb_le | reflexivity].
  - reflexivity.
Defined.

(** ** Access by frame and channel *)

Lemma frame_index (count c f ch : Z) :
  1 <= c -> 0 <= count < UInt.modulus -> 0 <= f < count / c -> 0 <= ch < c ->
  UInt.add (UInt.mul f c) ch = f * c + ch /\ 0 <= f * c + ch < count.
Proof.
  intros Hc Hcount Hf Hch.
  assert (Hlt : f * c + ch < count).
  { assert (c * (count / c) <= count) by (apply Z.mul_div_le; lia). nia. }
  assert (0 <= f * c) by nia.
  unfold UInt.add, UInt.mul. rewrite (wrap_small (f * c)) by lia.
  rewrite wrap_small by lia. lia.
Qed.

(** X2. With at least one channel, a frame below the frame count and a
    channel below the channel count, access by frame and channel is access
    at the absolute index frame * channels + channel, for reading and for
    writing; the multiplication does not wrap around. A finite value written
    by frame and channel is read back by frame and channel. *)
Theorem byFrame_is_absolute (a : AudioData) (frame channel : Z) (value : float) :
  1 <= channels a -> 0 <= frame < sampleCount a / channels a ->
  0 <= channel < channels a ->
  getSampleByFrame frame channel a = getSample (frame * channels a + channel) a
  /\ setSampleByFrame frame channel value a
     = setSample (frame * channels a + channel) value a
  /\ (F32.isfinite value = true ->
      exists a', setSampleByFrame frame channel value a = Ret tt a'
                 /\ getSampleByFrame frame channel a' = Ret value a').
Proof.
  intros Hc Hf Hch.
  destruct (frame_index (sampleCount a) (channels a) frame channel Hc
              (wrap_range _) Hf Hch) as (Hidx & Hrange).
  assert (Hget : forall b, channels b = channels a -> sampleCount b = sampleCount a ->
                   getSampleByFrame frame channel b
                   = getSample (frame * channels a + channel) b).
  { intros b Hcb Hsb. unfold getSampleByFrame, bind.
    rewrite getFrameCount_returns by lia. rewrite Hcb, Hsb.
    destruct (Z.geb_spec frame (sampleCount a / channels a)); [lia|].
    unfold gets. rewrite Hcb.
    destruct (Z.geb_spec channel (channels a)); [lia|]. now rewrite Hidx. }
  assert (Hset : setSampleByFrame frame channel value a
                 = setSample (frame * channels a + channel) value a).
  { unfold setSampleByFrame, bind. rewrite getFrameCount_returns by lia.
    destruct (Z.geb_spec frame (sampleCount a / channels a)); [lia|].
    unfold gets. destruct (Z.geb_spec channel (channels a)); [lia|]. now rewrite Hidx. }
  split; [now apply Hget|]. split; [exact Hset|].
  intros Hv. pose proof (sampleCount_le_size a) as Hle.
  exists (set_samples (<[Z.to_nat (frame * channels a + channel) := value]> (samples a)) a).
  assert (Hcount : sampleCount (set_samples (<[Z.to_nat (frame * channels a + channel)
                                               := value]> (samples a)) a)
                   = sampleCount a).
  { unfold sampleCount, size. cbn [samples set_samples]. now rewrite length_insert. }
  split; [rewrite Hset; now apply setSample_returns|].
  rewrite Hget; [|reflexivity|exact Hcount].
  apply getSample_lookup; [rewrite Hcount; lia|]. cbn [samples set_samples].
  apply list_lookup_insert_eq. unfold size in Hle. lia.
Qed.

Lemma byFrame_is_absolute_witness :
  getSampleByFrame 2 1 stereo4 = getSample 5 stereo4
  /\ setSampleByFrame 2 1 f1 stereo4 = setSample 5 f1 stereo4
  /\ (F32.isfinite f1 = true ->
      exists a', setSampleByFrame 2 1 f1 stereo4 = Ret tt a'
                 /\ getSampleByFrame 2 1 a' = Ret f1 a').
Proof.
  apply (byFrame_is_absolute stereo4 2 1 f1).
  - now apply Z.leb_le.
  - split; [now apply Z.leb_le | reflexivity].
  - split; [now apply Z.leb_le | reflexivity].
Defined.

(** X3. Access by frame and channel fails, and leaves the object as it was:
    with an invalid-configuration error when the channel count is 0, whatever
    the frame and the channel; with an out-of-bounds error when the frame is
    not below the frame count, and when the frame is but the channel is not
    below the channel count. This holds for reading and for writing, also of
    a value that is not finite: the bounds are checked first. *)
Theorem byFrame_errors (a : AudioData) (frame channel : Z) (value : float) :
  (channels a < 1 ->
     fails (getSampleByFrame frame channel) a InvalidConfiguration
     /\ fails (setSampleByFrame frame channel value) a InvalidConfiguration)
  /\ (1 <= channels a -> sampleCount a / channels a <= frame ->
     fails (getSampleByFrame frame channel) a OutOfBounds
     /\ fails (setSampleByFrame frame channel value) a OutOfBounds)
  /\ (1 <= channels a -> frame < sampleCount a / channels a -> channels a <= channel ->
     fails (getSampleByFrame frame channel) a OutOfBounds
     /\ fails (setSampleByFrame frame channel value) a OutOfBounds).
Proof.
  unfold fails, getSampleByFrame, setSampleByFrame, bind. split; [|split].
  - intros Hc. rewrite getFrameCount_throws by assumption.
    split; exists ChannelsZero; now split.
  - intros Hc Hf. rewrite getFrameCount_returns by assumption.
    destruct (Z.geb_spec frame (sampleCount a / channels a)); [|lia].
    rewrite getFrameCount_returns by assumption. split; eexists; now split.
  - intros Hc Hf Hch. rewrite getFrameCount_returns by assumption.
    destruct (Z.geb_spec frame (sampleCount a / channels a)); [lia|].
    unfold gets. destruct (Z.geb_spec channel (channels a)); [|lia].
    split; eexists; now split.
Qed.

Lemma byFrame_errors_witness :
  fails (getSampleByFrame 0 0) unconfigured2 InvalidConfiguration
  /\ fails (setSampleByFrame 4 0 S754_nan) stereo4 OutOfBounds
  /\ fails (getSampleByFrame 1 2) stereo4 OutOfBounds.
Proof.
  split; [|split].
  - destruct (byFrame_errors unconfigured2 0 0 f1) as (H & _ & _).
    apply H. reflexivity.
  - destruct (byFrame_errors stereo4 4 0 S754_nan) as (_ & H & _).
    apply H; now apply Z.leb_le.
  - destruct (byFrame_errors stereo4 1 2 f1) as (_ & _ & H).
    apply H; [now apply Z.leb_le | reflexivity | now apply Z.leb_le].
Defined.

(** ** Growth *)

Lemma resize_grow (s : list float) (n : Z) :
  0 <= n -> resize (size s + n) F32.zero s = s ++ replicate (Z.to_nat n) F32.zero.
Proof.
  intros Hn. unfold resize, size. rewrite take_ge by lia. f_equal. f_equal. lia.
Qed.

Lemma resize_shrink (s : list float) (k : Z) :
  0 <= k <= size s -> resize k F32.zero s = take (Z.to_nat k) s.
Proof.
  intros Hk. unfold resize. unfold size in Hk.
  replace (Z.to_nat k - length s)%nat with 0%nat by lia. apply app_nil_r.
Qed.

Lemma sampleCount_small (a : AudioData) :
  size (samples a) < UInt.modulus -> sampleCount a = size (samples a).
Proof.
  intros H. unfold sampleCount. apply wrap_small.
  pose proof (size_nonneg (samples a)). lia.
Qed.

Lemma addToSampleCount_returns (a : AudioData) (n : Z) :
  0 <= n -> size (samples a) + n < UInt.modulus ->
  addToSampleCount n a
  = Ret tt (set_samples (samples a ++ replicate (Z.to_nat n) F32.zero) a).
Proof.
  intros Hn Hs. pose proof (size_nonneg (samples a)) as H0.
  unfold addToSampleCount, getSampleCount, bind, gets, modify.
  rewrite (sampleCount_small a) by lia. unfold UInt.add. rewrite wrap_small by lia.
  now rewrite resize_grow.
Qed.

Lemma sampleCount_grown (a : AudioData) (n : Z) :
  0 <= n -> size (samples a) + n < UInt.modulus ->
  sampleCount (set_samples (samples a ++ replicate (Z.to_nat n) F32.zero) a)
  = sampleCount a + n.
Proof.
  intros Hn Hs. pose proof (size_nonneg (samples a)) as H0.
  rewrite (sampleCount_small a) by lia. unfold sampleCount. cbn [samples set_samples].
  rewrite size_app. unfold size at 2. rewrite length_replicate, Z2Nat.id by lia.
  apply wrap_small. lia.
Qed.

(** X4. When the sample count and the number of new samples together fit
    an [unsigned int], [addToSampleCount n] returns with [n] zeros behind the
    samples there were, which are kept; the sample count has grown by [n]
    and nothing else has changed. *)
Theorem addToSampleCount_appends_zeros (a : AudioData) (n : Z) :
  0 <= n -> size (samples a) + n < UInt.modulus ->
  addToSampleCount n a
  = Ret tt (set_samples (samples a ++ replicate (Z.to_nat n) F32.zero) a)
  /\ sampleCount (set_samples (samples a ++ replicate (Z.to_nat n) F32.zero) a)
     = sampleCount a + n.
Proof.
  intros Hn Hs. split; [now apply addToSampleCount_returns | now apply sampleCount_grown].
Qed.

Lemma addToSampleCount_appends_zeros_witness :
  addToSampleCount 2 mono4
  = Ret tt (set_samples (samples mono4 ++ replicate (Z.to_nat 2) F32.zero) mono4)
  /\ sampleCount (set_samples (samples mono4 ++ replicate (Z.to_nat 2) F32.zero) mono4)
     = sampleCount mono4 + 2.
Proof.
  apply (addToSampleCount_appends_zeros mono4 2); [lia | reflexivity].
Defined.

(** X5. The sum in [addToSampleCount] is an [unsigned int]: when the sample
    count and the number of new samples together reach 2^32, the sum wraps
    around and the call, instead of growing the deque, cuts it down to its
    first count + n - 2^32 samples, which are fewer than it had. *)
Theorem addToSampleCount_wraps (a : AudioData) (n : Z) :
  0 <= n < UInt.modulus -> size (samples a) < UInt.modulus ->
  UInt.modulus <= size (samples a) + n ->
  addToSampleCount n a
  = Ret tt (set_samples
              (take (Z.to_nat (size (samples a) + n - UInt.modulus)) (samples a)) a)
  /\ size (take (Z.to_nat (size (samples a) + n - UInt.modulus)) (samples a))
     = size (samples a) + n - UInt.modulus
  /\ size (samples a) + n - UInt.modulus < size (samples a).
Proof.
  intros Hn Hs Hwrap. pose proof (size_nonneg (samples a)) as H0.
  assert (Hc : sampleCount a = size (samples a)) by (apply sampleCount_small; lia).
  assert (Hsum : UInt.add (size (samples a)) n = size (samples a) + n - UInt.modulus).
  { unfold UInt.add, UInt.wrap. symmetry.
    apply (Z.mod_unique _ _ 1); lia. }
  split; [|split].
  - unfold addToSampleCount, getSampleCount, bind, gets, modify.
    rewrite Hc, Hsum. now rewrite resize_shrink by lia.
  - unfold size at 1. rewrite length_take. unfold size in *. lia.
  - lia.
Qed.

Lemma addToSampleCount_wraps_witness :
  addToSampleCount 4294967295 mono4
  = Ret tt (set_samples
              (take (Z.to_nat (size (samples mono4) + 4294967295 - UInt.modulus))
                 (samples mono4)) mono4)
  /\ size (take (Z.to_nat (size (samples mono4) + 4294967295 - UInt.modulus))
             (samples mono4))
     = size (samples mono4) + 4294967295 - UInt.modulus
  /\ size (samples mono4) + 4294967295 - UInt.modulus < size (samples mono4).
Proof.
  apply (addToSampleCount_wraps mono4 4294967295).
  - split; [now apply Z.leb_le | reflexivity].
  - reflexivity.
  - now apply Z.leb_le.
Defined.

(** X6. With no channels [addToFrameCount] fails with an
    invalid-configuration error and changes nothing. With at least one
    channel, and the samples there are and the new ones together fitting an
    [unsigned int], [addToFrameCount n] returns with n * channels zeros
    behind the samples there were, and the frame count has grown by [n]. *)
Theorem addToFrameCount_grows (a : AudioData) (n : Z) :
  (channels a < 1 -> fails (addToFrameCount n) a InvalidConfiguration)
  /\ (1 <= channels a -> 0 <= n ->
      size (samples a) + n * channels a < UInt.modulus ->
      exists a',
        addToFrameCount n a = Ret tt a'
        /\ samples a' = samples a ++ replicate (Z.to_nat (n * channels a)) F32.zero
        /\ channels a' = channels a /\ frameRate a' = frameRate a
        /\ getFrameCount a' = Ret (sampleCount a / channels a + n) a').
Proof.
  split.
  - intros Hc. exists ChannelsZero. split; [|reflexivity].
    unfold addToFrameCount, bind, gets, throw.
    now destruct (Z.ltb_spec (channels a) 1); [|lia].
  - intros Hc Hn Hs. pose proof (size_nonneg (samples a)) as H0.
    assert (Hmul : 0 <= n * channels a) by nia.
    pose proof (addToSampleCount_returns a (n * channels a) Hmul Hs) as Hret.
    pose proof (sampleCount_grown a (n * channels a) Hmul Hs) as Hcount.
    exists (set_samples (samples a ++ replicate (Z.to_nat (n * channels a)) F32.zero) a).
    split; [|split; [reflexivity|split; [reflexivity|split; [reflexivity|]]]].
    + unfold addToFrameCount, bind, gets.
      destruct (Z.ltb_spec (channels a) 1); [lia|].
      unfold UInt.mul. rewrite wrap_small by lia. exact Hret.
    + rewrite getFrameCount_returns by exact Hc. rewrite Hcount.
      cbn [channels set_samples]. f_equal. apply Z.div_add. lia.
Qed.

Lemma addToFrameCount_grows_witness :
  fails (addToFrameCount 3) empty InvalidConfiguration
  /\ exists a',
       addToFrameCount 3 (set_channels 2 empty) = Ret tt a'
       /\ samples a' = replicate 6 F32.zero
       /\ getFrameCount a' = Ret 3 a'.
Proof.
  split.
  - destruct (addToFrameCount_grows empty 3) as (H & _). apply H. reflexivity.
  - destruct (addToFrameCount_grows (set_channels 2 empty) 3) as (_ & H).
    destruct H as (a' & Hret & Hs & _ & _ & Hf);
      [now apply Z.leb_le | lia | reflexivity |].
    exists a'. split; [exact Hret|]. split; [exact Hs | exact Hf].
Defined.

(** ** Merging *)

Lemma merge_mismatch (a that : AudioData) :
  channels a <> 0 \/ frameRate a <> 0 ->
  (channels that <> channels a ->
     append that a = Throw AppendChannels a /\ prepend that a = Throw PrependChannels a)
  /\ (channels that = channels a -> frameRate that <> frameRate a ->
      append that a = Throw AppendFrameRate a
      /\ prepend that a = Throw PrependFrameRate a).
Proof.
  intros Hcfg.
  assert (Hno : (channels a =? 0) && (frameRate a =? 0) = false).
  { apply andb_false_iff. rewrite !Z.eqb_neq. tauto. }
  split.
  - intros Hc. unfold append, prepend, adopt, bind, gets, throw. rewrite Hno.
    apply Z.eqb_neq in Hc. cbn. now rewrite Hc.
  - intros Hc Hr. unfold append, prepend, adopt, bind, gets, throw. rewrite Hno.
    apply Z.eqb_neq in Hr. cbn. rewrite Hc, Z.eqb_refl. cbn. rewrite Hr.
    now cbn.
Qed.

(** X7. What [append] and [prepend] do is decided by the configuration
    alone. A receiver with neither channels nor frame rate takes both from
    the other buffer and the merge returns. Any other receiver, also one with
    only one of the two set, keeps its configuration: the merge fails with an
    incompatible-merge error, and changes nothing, when the channel counts
    differ, or when they agree and the frame rates differ; it returns when
    both agree. On return the samples of the other buffer stand behind
    ([append]) or before ([prepend]) those of the receiver. *)
Theorem merge_outcome (a that : AudioData) :
  (channels a = 0 -> frameRate a = 0 ->
     append that a
     = Ret tt (mkAudioData (samples a ++ samples that) (channels that) (frameRate that)
                 (readIterator a) (writeIterator a))
     /\ prepend that a
        = Ret tt (mkAudioData (samples that ++ samples a) (channels that) (frameRate that)
                    (readIterator a) (writeIterator a)))
  /\ (channels a <> 0 \/ frameRate a <> 0 ->
      (channels that <> channels a ->
         append that a = Throw AppendChannels a
         /\ prepend that a = Throw PrependChannels a
         /\ kind AppendChannels = IncompatibleMerge
         /\ kind PrependChannels = IncompatibleMerge)
      /\ (channels that = channels a -> frameRate that <> frameRate a ->
          append that a = Throw AppendFrameRate a
          /\ prepend that a = Throw PrependFrameRate a
          /\ kind AppendFrameRate = IncompatibleMerge
          /\ kind PrependFrameRate = IncompatibleMerge)
      /\ (channels that = channels a -> frameRate that = frameRate a ->
          append that a = Ret tt (set_samples (samples a ++ samples that) a)
          /\ prepend that a = Ret tt (set_samples (samples that ++ samples a) a))).
Proof.
  split.
  - intros Hc Hr. unfold append, prepend, adopt, bind, gets, modify.
    rewrite Hc, Hr. cbn. rewrite !Z.eqb_refl. cbn. rewrite !Z.eqb_refl. now cbn.
  - intros Hcfg. destruct (merge_mismatch a that Hcfg) as (Hc1 & Hc2).
    split; [|split].
    + intros Hc. destruct (Hc1 Hc). now repeat split.
    + intros Hc Hr. destruct (Hc2 Hc Hr). now repeat split.
    + intros Hc Hr. split; [now apply append_returns | now apply prepend_returns].
Qed.

Lemma merge_outcome_witness :
  (append monoB empty = Ret tt monoB /\ prepend monoB empty = Ret tt monoB)
  /\ append stereo4 monoA = Throw AppendChannels monoA
  /\ prepend mono4_slow monoA = Throw PrependFrameRate monoA
  /\ append monoB monoA = Ret tt (set_samples (samples monoA ++ samples monoB) monoA).
Proof.
  split; [|split; [|split]].
  - destruct (merge_outcome empty monoB) as (H & _). apply H; reflexivity.
  - destruct (merge_outcome monoA stereo4) as (_ & H).
    destruct H as (H & _ & _); [left; discriminate|].
    apply H. discriminate.
  - destruct (merge_outcome monoA mono4_slow) as (_ & H).
    destruct H as (_ & H & _); [left; discriminate|].
    apply H; [reflexivity | discriminate].
  - destruct (merge_outcome monoA monoB) as (_ & H).
    destruct H as (_ & _ & H); [left; discriminate|].
    apply H; reflexivity.
Defined.

(** X8. On a receiver that has a channel count or a frame rate, [append] of
    one buffer and [prepend] of another can be done in either order: when
    [append b] and then [prepend c] return, so do [prepend c] and then
    [append b], with the same object at the end, whose samples are those of
    [c], of the receiver and of [b], in this order. *)
Theorem append_prepend_commute (a b c a1 a2 : AudioData) :
  channels a <> 0 \/ frameRate a <> 0 ->
  append b a = Ret tt a1 -> prepend c a1 = Ret tt a2 ->
  samples a2 = samples c ++ samples a ++ samples b
  /\ exists a1', prepend c a = Ret tt a1' /\ append b a1' = Ret tt a2.
Proof.
  intros Hcfg Hab Hpc.
  destruct (merge_mismatch a b Hcfg) as (Hb1 & Hb2).
  destruct (Z.eq_dec (channels b) (channels a)) as [Hcb|Hcb].
  2:{ destruct (Hb1 Hcb) as (H & _). rewrite H in Hab. discriminate. }
  destruct (Z.eq_dec (frameRate b) (frameRate a)) as [Hrb|Hrb].
  2:{ destruct (Hb2 Hcb Hrb) as (H & _). rewrite H in Hab. discriminate. }
  rewrite (append_returns a b Hcfg Hcb Hrb) in Hab. injection Hab as <-.
  destruct (merge_mismatch (set_samples (samples a ++ samples b) a) c Hcfg) as (Hc1 & Hc2).
  cbn [channels frameRate set_samples] in *.
  destruct (Z.eq_dec (channels c) (channels a)) as [Hcc|Hcc].
  2:{ destruct (Hc1 Hcc) as (_ & H'). rewrite H' in Hpc. discriminate. }
  destruct (Z.eq_dec (frameRate c) (frameRate a)) as [Hrc|Hrc].
  2:{ destruct (Hc2 Hcc Hrc) as (_ & H'). rewrite H' in Hpc. discriminate. }
  rewrite prepend_returns in Hpc; [|exact Hcfg|exact Hcc|exact Hrc].
  injection Hpc as <-.
  split; [reflexivity|].
  exists (set_samples (samples c ++ samples a) a). split.
  - now apply prepend_returns.
  - rewrite append_returns; [|exact Hcfg|exact Hcb|exact Hrb].
    cbn. unfold set_samples. cbn. now rewrite <- app_assoc.
Qed.

Lemma append_prepend_commute_witness :
  samples (mkAudioData [f2; f1; f2] 1 44100 0 0) = samples monoB ++ samples monoA ++ samples monoB
  /\ exists a1', prepend monoB monoA = Ret tt a1'
                 /\ append monoB a1' = Ret tt (mkAudioData [f2; f1; f2] 1 44100 0 0).
Proof.
  apply (append_prepend_commute monoA monoB monoB (mkAudioData [f1; f2] 1 44100 0 0)).
  - left. discriminate.
  - reflexivity.
  - reflexivity.
Defined.

(** ** Discarding from the front *)

(** X9. [discardFramesFromFront n] fails, and changes nothing, with an
    invalid-configuration error when there are no channels and with an
    out-of-bounds error when [n] is above the frame count. Otherwise (the
    sample count fitting an [unsigned int]) it returns, the first
    n * channels samples are gone, the others are kept in their order, and
    the frame count is lower by [n]. *)
Theorem discardFramesFromFront_outcome (a : AudioData) (n : Z) :
  (channels a < 1 -> fails (discardFramesFromFront n) a InvalidConfiguration)
  /\ (1 <= channels a -> sampleCount a / channels a < n ->
      fails (discardFramesFromFront n) a OutOfBounds)
  /\ (1 <= channels a -> size (samples a) < UInt.modulus ->
      0 <= n <= sampleCount a / channels a ->
      exists a',
        discardFramesFromFront n a = Ret tt a'
        /\ samples a' = drop (Z.to_nat (n * channels a)) (samples a)
        /\ channels a' = channels a /\ frameRate a' = frameRate a
        /\ getFrameCount a' = Ret (sampleCount a / channels a - n) a').
Proof.
  split; [|split].
  - intros Hc. exists ChannelsZero. split; [|reflexivity].
    unfold discardFramesFromFront, bind. now rewrite getFrameCount_throws.
  - intros Hc Hn. exists (DiscardBounds n (sampleCount a / channels a)).
    split; [|reflexivity].
    unfold discardFramesFromFront, bind. rewrite getFrameCount_returns by assumption.
    destruct (Z.gtb_spec n (sampleCount a / channels a)); [|lia].
    now rewrite getFrameCount_returns by assumption.
  - intros Hc Hs Hn. pose proof (sampleCount_small a Hs) as Hcount.
    rewrite Hcount in *.
    exists (set_samples (drop (Z.to_nat (n * channels a)) (samples a)) a).
    split; [now apply discardFramesFromFront_returns|].
    split; [reflexivity|]. split; [reflexivity|]. split; [reflexivity|].
    rewrite getFrameCount_returns by exact Hc. cbn [channels set_samples]. f_equal.
    assert (Hmul : 0 <= n * channels a <= size (samples a)).
    { split; [nia|].
      assert (channels a * (size (samples a) / channels a) <= size (samples a))
        by (apply Z.mul_div_le; lia). nia. }
    rewrite sampleCount_small.
    + cbn [samples set_samples]. unfold size at 1. rewrite length_drop.
      replace (Z.of_nat (length (samples a) - Z.to_nat (n * channels a)))
        with (size (samples a) + (- n) * channels a) by (unfold size in *; lia).
      rewrite Z.div_add by lia. lia.
    + cbn [samples set_samples]. unfold size at 1. rewrite length_drop.
      unfold size in *. lia.
Qed.

Lemma discardFramesFromFront_outcome_witness :
  fails (discardFramesFromFront 0) unconfigured2 InvalidConfiguration
  /\ fails (discardFramesFromFront 5) stereo4 OutOfBounds
  /\ exists a',
       discardFramesFromFront 3 stereo4 = Ret tt a'
       /\ samples a' = [f6; f8] /\ getFrameCount a' = Ret 1 a'.
Proof.
  split; [|split].
  - destruct (discardFramesFromFront_outcome unconfigured2 0) as (H & _).
    apply H. reflexivity.
  - destruct (discardFramesFromFront_outcome stereo4 5) as (_ & H & _).
    apply H; [now apply Z.leb_le | reflexivity].
  - destruct (discardFramesFromFront_outcome stereo4 3) as (_ & _ & H).
    destruct H as (a' & Hret & Hs & _ & _ & Hf);
      [now apply Z.leb_le | reflexivity | split; now apply Z.leb_le |].
    exists a'. split; [exact Hret|]. split; [exact Hs | exact Hf].
Defined.

(** X10. Discarding [m] frames and then [n] frames is discarding m + n
    frames at once, when the buffer has that many (at least one channel, the
    sample count fitting an [unsigned int]). *)
Theorem discardFramesFromFront_twice (a : AudioData) (m n : Z) :
  1 <= channels a -> size (samples a) < UInt.modulus ->
  0 <= m -> 0 <= n -> m + n <= sampleCount a / channels a ->
  (discardFramesFromFront m >> discardFramesFromFront n) a
  = discardFramesFromFront (m + n) a.
Proof.
  intros Hc Hs Hm Hn Hmn.
  pose proof (sampleCount_small a Hs) as Hcount. rewrite Hcount in Hmn.
  assert (Hdiv : channels a * (size (samples a) / channels a) <= size (samples a))
    by (apply Z.mul_div_le; lia).
  assert (Hmc : 0 <= m * channels a <= size (samples a)) by nia.
  assert (Hsize1 : size (drop (Z.to_nat (m * channels a)) (samples a))
                   = size (samples a) + (- m) * channels a).
  { unfold size in *. rewrite length_drop. lia. }
  unfold bind. rewrite (discardFramesFromFront_returns a m) by lia.
  rewrite discardFramesFromFront_returns; cbn [samples channels set_samples].
  - rewrite (discardFramesFromFront_returns a (m + n)) by lia.
    f_equal. unfold set_samples. cbn. f_equal. rewrite drop_drop. f_equal. nia.
  - exact Hc.
  - rewrite Hsize1. nia.
  - rewrite Hsize1, Z.div_add by lia. lia.
Qed.

Lemma discardFramesFromFront_twice_witness :
  (discardFramesFromFront 1 >> discardFramesFromFront 2) stereo4
  = discardFramesFromFront (1 + 2) stereo4.
Proof.
  apply (discardFramesFromFront_twice stereo4 1 2).
  - now apply Z.leb_le.
  - reflexivity.
  - lia.
  - lia.
  - now apply Z.leb_le.
Defined.

(** ** Whole frames *)

Lemma size_resize (s : list float) (k : Z) (v : float) :
  0 <= k -> size (resize k v s) = k.
Proof.
  intros Hk. unfold resize, size. rewrite length_app, length_take, length_replicate. lia.
Qed.

(** X11. A deque that holds whole frames still does after the calls that
    work by frames or leave the length alone: [addToFrameCount] (when the
    grown deque fits an [unsigned int]), [discardFramesFromFront],
    [append] and [prepend] of a buffer of whole frames, [setSample], and
    [reduceToMono], whenever they return. *)
Theorem wholeFrames_kept (a : AudioData) :
  wholeFrames a ->
  (forall n a', 0 <= n -> size (samples a) + n * channels a < UInt.modulus ->
                addToFrameCount n a = Ret tt a' -> wholeFrames a')
  /\ (forall n a', 0 <= n -> size (samples a) < UInt.modulus ->
                   discardFramesFromFront n a = Ret tt a' -> wholeFrames a')
  /\ (forall that a', wholeFrames that -> append that a = Ret tt a' -> wholeFrames a')
  /\ (forall that a', wholeFrames that -> prepend that a = Ret tt a' -> wholeFrames a')
  /\ (forall i v a', setSample i v a = Ret tt a' -> wholeFrames a')
  /\ (forall fuel a', reduceToMono fuel a = Ret tt a' -> wholeFrames a').
Proof.
  intros (k & Hk). pose proof (size_nonneg (samples a)) as H0.
  split; [|split; [|split; [|split; [|split]]]].
  - intros n a' Hn Hs H. unfold addToFrameCount, addToSampleCount in H. split_in H;
      try discriminate H. run_in H. injection H as <-.
    apply Z.ltb_ge in Heqb.
    exists (k + n). unfold wholeFrames. cbn [samples channels set_samples].
    assert (0 <= n * channels a) by nia.
    rewrite size_resize by apply wrap_range.
    unfold UInt.add, UInt.mul. rewrite (sampleCount_small a) by lia.
    rewrite (wrap_small (n * channels a)) by lia. rewrite wrap_small by lia. lia.
  - intros n a' Hn Hs H.
    destruct (Z.lt_ge_cases (channels a) 1) as [Hc|Hc].
    { unfold discardFramesFromFront, bind in H.
      rewrite getFrameCount_throws in H by assumption. discriminate. }
    destruct (Z.lt_ge_cases (sampleCount a / channels a) n) as [Hf|Hf].
    { unfold discardFramesFromFront, bind in H.
      rewrite getFrameCount_returns in H by lia.
      destruct (Z.gtb_spec n (sampleCount a / channels a)); [|lia].
      rewrite getFrameCount_returns in H by lia. discriminate. }
    rewrite (sampleCount_small a Hs) in Hf.
    rewrite discardFramesFromFront_returns in H by lia. injection H as <-.
    exists (k - n). cbn [samples channels set_samples]. unfold size. rewrite length_drop.
    assert (channels a * (size (samples a) / channels a) <= size (samples a))
      by (apply Z.mul_div_le; lia).
    unfold size in *. nia.
  - intros that a' (kt & Hkt) H. unfold append in H. split_in H; try discriminate H;
      run_in H; injection H as <-;
      cbn [samples channels set_samples set_frameRate set_channels] in *.
    + apply andb_true_iff in Heqb as (Hc0 & _). apply Z.eqb_eq in Hc0.
      exists kt. cbn [samples channels set_samples set_frameRate set_channels].
      rewrite size_app, Hk, Hkt, Hc0. lia.
    + apply negb_false_iff, Z.eqb_eq in Heqb0. exists (k + kt).
      cbn [samples channels set_samples set_frameRate set_channels].
      rewrite size_app, Hk, Hkt, Heqb0. lia.
  - intros that a' (kt & Hkt) H. unfold prepend in H. split_in H; try discriminate H;
      run_in H; injection H as <-;
      cbn [samples channels set_samples set_frameRate set_channels] in *.
    + apply andb_true_iff in Heqb as (Hc0 & _). apply Z.eqb_eq in Hc0.
      exists kt. cbn [samples channels set_samples set_frameRate set_channels].
      rewrite size_app, Hk, Hkt, Hc0. lia.
    + apply negb_false_iff, Z.eqb_eq in Heqb0. exists (k + kt).
      cbn [samples channels set_samples set_frameRate set_channels].
      rewrite size_app, Hk, Hkt, Heqb0. lia.
  - intros i v a' H. unfold setSample in H. split_in H; try discriminate H.
    run_in H. injection H as <-. exists k. cbn [samples channels set_samples].
    erewrite store_size by eassumption. exact Hk.
  - intros fuel a' H. unfold reduceToMono in H. split_in H; try discriminate H;
      run_in H; injection H as <-.
    + now exists k.
    + eexists. cbn [samples channels set_samples set_channels]. symmetry. apply Z.mul_1_r.
Qed.

Lemma wholeFrames_kept_witness :
  wholeFrames (mkAudioData [f2; f4; f5; f7; f6; f8] 2 44100 0 0).
Proof.
  assert (H : wholeFrames stereo4) by (exists 4; reflexivity).
  destruct (wholeFrames_kept stereo4 H) as (_ & Hdiscard & _).
  apply (Hdiscard 1); [lia | reflexivity | reflexivity].
Defined.

(** ** Slicing *)

(** X12. [sliceSamplesFromBack n] checks the bound before anything else:
    with [n] above the sample count it fails with an out-of-bounds error and
    changes nothing, whatever the frame rate. When it returns (frame rate
    set, sample count fitting an [unsigned int]) the samples of the
    receiver before the call are those it keeps followed by those of the
    new buffer, which has [n] of them, the channel count and the frame rate
    of the receiver, and its iterators at their initial value. *)
Theorem sliceSamplesFromBack_outcome (fuel : nat) (a : AudioData) (n : Z) :
  (sampleCount a < n -> fails (sliceSamplesFromBack fuel n) a OutOfBounds)
  /\ (1 <= frameRate a -> size (samples a) < UInt.modulus ->
      0 <= n <= sampleCount a -> (Z.to_nat n <= fuel)%nat ->
      exists that a',
        sliceSamplesFromBack fuel n a = Ret that a'
        /\ samples a = samples a' ++ samples that
        /\ size (samples that) = n /\ sampleCount a' = sampleCount a - n
        /\ channels that = channels a /\ frameRate that = frameRate a
        /\ readIterator that = 0 /\ writeIterator that = 0
        /\ channels a' = channels a /\ frameRate a' = frameRate a).
Proof.
  split.
  - intros Hn. exists (SliceBounds n (sampleCount a)). split; [|reflexivity].
    unfold sliceSamplesFromBack, getSampleCount, bind, gets, throw.
    now destruct (Z.gtb_spec n (sampleCount a)); [|lia].
  - intros Hr Hs Hn Hfuel. pose proof (sampleCount_small a Hs) as Hc.
    rewrite Hc in Hn.
    eexists _, _. split; [now apply sliceSamplesFromBack_returns|].
    cbn [samples channels frameRate readIterator writeIterator set_samples].
    split; [now rewrite take_drop|].
    split; [unfold size in *; rewrite length_drop; lia|].
    split; [|now repeat split].
    rewrite sampleCount_small; cbn [samples set_samples]; unfold size in *;
      rewrite length_take; lia.
Qed.

Lemma sliceSamplesFromBack_outcome_witness :
  fails (sliceSamplesFromBack 0 3) unconfigured2 OutOfBounds
  /\ exists that a',
       sliceSamplesFromBack 1 1 mono4 = Ret that a'
       /\ samples mono4 = samples a' ++ samples that
       /\ size (samples that) = 1.
Proof.
  split.
  - destruct (sliceSamplesFromBack_outcome 0 unconfigured2 3) as (H & _).
    apply H. reflexivity.
  - destruct (sliceSamplesFromBack_outcome 1 mono4 1) as (_ & H).
    destruct H as (that & a' & H1 & H2 & H3 & _);
      [now apply Z.leb_le | reflexivity | split; now apply Z.leb_le
      | apply Nat.leb_le; reflexivity |].
    exists that, a'. split; [exact H1|]. split; [exact H2 | exact H3].
Defined.

(** ** Reduction to mono, for any number of channels *)

Lemma deref_end (s : list float) : deref s (size s) = None.
Proof.
  unfold deref. rewrite Z.ltb_irrefl. now rewrite andb_false_r.
Qed.

Lemma sumFrame_block :
  forall (fr pre rest : list float) (sum : float),
    sumFrame (length fr) (pre ++ fr ++ rest) (size pre) sum
    = Some (size pre + size fr, fold_left F32.add fr sum).
Proof.
  induction fr as [|x fr IH]; intros pre rest sum.
  - cbn [length sumFrame fold_left]. change (size []) with 0. now rewrite Z.add_0_r.
  - cbn [length sumFrame app fold_left]. rewrite deref_middle.
    replace (pre ++ x :: fr ++ rest) with ((pre ++ [x]) ++ fr ++ rest)
      by now rewrite <- app_assoc.
    replace (size pre + 1) with (size (pre ++ [x]))
      by (rewrite size_app; reflexivity).
    rewrite IH. f_equal. f_equal. rewrite size_app, !size_cons.
    change (size []) with 0. lia.
Qed.

Lemma sumFrame_short :
  forall (tail : list float) (n : nat) (pre : list float) (sum : float),
    (length tail < n)%nat -> sumFrame n (pre ++ tail) (size pre) sum = None.
Proof.
  induction tail as [|x tail IH]; intros n pre sum Hn.
  - destruct n; [inversion Hn|]. cbn [sumFrame]. now rewrite app_nil_r, deref_end.
  - destruct n as [|n]; [inversion Hn|]. cbn [sumFrame]. rewrite deref_middle.
    replace (pre ++ x :: tail) with ((pre ++ [x]) ++ tail) by now rewrite <- app_assoc.
    replace (size pre + 1) with (size (pre ++ [x]))
      by (rewrite size_app; reflexivity).
    apply IH. cbn in Hn. lia.
Qed.

Lemma reduce_step_frame (c : Z) (pre mid fr rest t : list float) (m0 : float) :
  size fr = c -> mid ++ fr = m0 :: t ->
  reduceBody c (mkCursor (pre ++ mid ++ fr ++ rest) (size pre + size mid) (size pre))
  = Some (mkCursor ((pre ++ [frameMean c fr]) ++ t ++ rest)
            (size pre + size mid + c) (size pre + 1)).
Proof.
  intros Hc Hm. unfold reduceBody. cbn [buf readAt writeAt].
  replace (Z.to_nat c) with (length fr) by (unfold size in Hc; lia).
  replace (pre ++ mid ++ fr ++ rest) with ((pre ++ mid) ++ fr ++ rest)
    by now rewrite <- app_assoc.
  rewrite <- size_app, sumFrame_block.
  replace ((pre ++ mid) ++ fr ++ rest) with (pre ++ m0 :: (t ++ rest)).
  2:{ rewrite <- !app_assoc. f_equal. rewrite (app_assoc mid), Hm. reflexivity. }
  rewrite store_middle. unfold frameMean. f_equal. f_equal.
  - now rewrite <- app_assoc.
  - rewrite Hc. reflexivity.
Qed.

Lemma size_concat (c : Z) (frames : list (list float)) :
  Forall (fun fr => size fr = c) frames ->
  size (concat frames) = Z.of_nat (length frames) * c.
Proof.
  induction 1 as [|fr frames Hfr _ IH]; [reflexivity|].
  cbn [concat length]. rewrite size_app, IH, Hfr. lia.
Qed.

(** The loop of [reduceToMono] over whole frames, whatever follows them:
    after one iteration for each frame the values of the frames stand behind
    the [pre] written before, and the loop goes on from there. *)
Lemma reduce_frames (c : Z) :
  1 <= c ->
  forall (frames : list (list float)) (pre mid rest : list float),
    Forall (fun fr => size fr = c) frames ->
    exists mid',
      size mid' = size mid + Z.of_nat (length frames) * (c - 1)
      /\ forall extra : nat,
          while (length frames + extra) reading (reduceBody c)
            (mkCursor (pre ++ mid ++ concat frames ++ rest) (size pre + size mid) (size pre))
          = while extra reading (reduceBody c)
              (mkCursor (pre ++ map (frameMean c) frames ++ mid' ++ rest)
                 (size pre + Z.of_nat (length frames) + size mid')
                 (size pre + Z.of_nat (length frames))).
Proof.
  intros Hc. induction frames as [|fr frames IH]; intros pre mid rest Hall.
  - exists mid. split; [cbn; lia|]. intros extra. cbn [length concat map app Nat.add].
    do 2 f_equal; cbn; lia.
  - inversion Hall as [|? ? Hfr Hall']; subst.
    destruct (mid ++ fr) as [|m0 t] eqn:Hm.
    { apply (f_equal length) in Hm. rewrite length_app in Hm. unfold size in Hc.
      cbn in Hm. lia. }
    assert (Ht : size t = size mid + size fr - 1).
    { apply (f_equal size) in Hm. rewrite size_app, size_cons in Hm. lia. }
    destruct (IH (pre ++ [frameMean (size fr) fr]) t rest Hall') as (mid' & Hmid & Hw).
    exists mid'. split; [rewrite Hmid, Ht; cbn [length]; lia|].
    intros extra. cbn [length concat Nat.add].
    rewrite <- (app_assoc fr).
    rewrite (while_step _ _ _ _
               (mkCursor ((pre ++ [frameMean (size fr) fr]) ++ t ++ concat frames ++ rest)
                  (size pre + size mid + size fr) (size pre + 1))).
    + replace (size pre + size mid + size fr) with (size (pre ++ [frameMean (size fr) fr]) + size t)
        by (rewrite size_app, Ht; change (size [frameMean (size fr) fr]) with 1; lia).
      replace (size pre + 1) with (size (pre ++ [frameMean (size fr) fr]))
        by (rewrite size_app; reflexivity).
      rewrite Hw. rewrite size_app. change (size [frameMean (size fr) fr]) with 1.
      cbn [map]. rewrite <- app_assoc. cbn [app].
      replace (Z.of_nat (S (length frames))) with (1 + Z.of_nat (length frames)) by lia.
      now rewrite !Z.add_assoc.
    + unfold reading. cbn [buf readAt]. apply Z.ltb_lt.
      rewrite !size_app. pose proof (size_nonneg (concat frames)).
      pose proof (size_nonneg rest). lia.
    + exact (reduce_step_frame (size fr) pre mid fr _ t m0 eq_refl Hm).
Qed.

(** X13. On a buffer with [c >= 2] channels that holds whole frames (and
    whose sample count fits an [unsigned int]), [reduceToMono] returns with
    one sample for each frame, in the order of the frames: the samples of
    the frame added one after the other to 0, divided by [c]. The deque is
    as long as there were frames, the channel count is 1, and the frame rate
    and the iterators are as before. *)
Theorem reduceToMono_frames (fuel : nat) (a : AudioData) (frames : list (list float)) :
  2 <= channels a -> samples a = concat frames ->
  Forall (fun fr => size fr = channels a) frames ->
  size (samples a) < UInt.modulus -> (length frames <= fuel)%nat ->
  reduceToMono fuel a
  = Ret tt (mkAudioData (map (frameMean (channels a)) frames) 1 (frameRate a)
              (readIterator a) (writeIterator a)).
Proof.
  intros Hc Hs Hall Hsize Hfuel.
  destruct (reduce_frames (channels a) ltac:(lia) frames [] [] [] Hall) as (mid' & Hmid & Hw).
  specialize (Hw (fuel - length frames)%nat).
  replace (length frames + (fuel - length frames))%nat with fuel in Hw by lia.
  rewrite !app_nil_r in Hw. cbn [app] in Hw. change (size []) with 0 in *.
  rewrite (while_done _ _ _ (mkCursor (map (frameMean (channels a)) frames ++ mid') _ _))
    in Hw.
  2:{ unfold reading. cbn [buf readAt]. apply Z.ltb_ge. rewrite size_app.
      unfold size at 1. rewrite length_map. lia. }
  unfold reduceToMono, bind, gets. cbv beta iota.
  destruct (Z.ltb_spec (channels a) 2); [lia|]. rewrite Hs.
  change (0 + 0) with 0 in Hw. rewrite Hw.
  cbn [of_loop ret modify buf]. unfold getSampleCount, gets, sampleCount.
  cbn [samples set_samples channels set_channels frameRate readIterator writeIterator].
  assert (Hlen : size (map (frameMean (channels a)) frames ++ mid')
                 = Z.of_nat (length frames) * channels a).
  { rewrite size_app, Hmid. unfold size at 1. rewrite length_map. lia. }
  rewrite Hlen, wrap_small.
  2:{ rewrite Hs, (size_concat (channels a)) in Hsize by exact Hall. nia. }
  rewrite Z.div_mul by lia. unfold resize. rewrite Nat2Z.id.
  rewrite take_app_length' by now rewrite length_map.
  replace (length frames - _)%nat with 0%nat by (rewrite length_app, length_map; lia).
  cbn [replicate]. now rewrite app_nil_r.
Qed.

Lemma reduceToMono_frames_witness :
  reduceToMono 2 (mkAudioData [f1; f2; f3; f4; f5; f6] 3 44100 0 0)
  = Ret tt (mkAudioData (map (frameMean 3) [[f1; f2; f3]; [f4; f5; f6]]) 1 44100 0 0).
Proof.
  apply (reduceToMono_frames 2 (mkAudioData [f1; f2; f3; f4; f5; f6] 3 44100 0 0)
           [[f1; f2; f3]; [f4; f5; f6]]).
  - now apply Z.leb_le.
  - reflexivity.
  - repeat constructor.
  - reflexivity.
  - apply Nat.leb_le. reflexivity.
Defined.

(** X14. On a buffer with [c >= 2] channels whose deque ends in a part of a
    frame (some samples, fewer than [c]), [reduceToMono] has no defined
    behaviour: after the whole frames, the inner loop reads [c] samples and
    so reads behind the end of the deque. *)
Theorem reduceToMono_partial_frame (fuel : nat) (a : AudioData)
    (frames : list (list float)) (tail : list float) :
  2 <= channels a -> samples a = concat frames ++ tail ->
  Forall (fun fr => size fr = channels a) frames ->
  0 < size tail < channels a -> (length frames < fuel)%nat ->
  reduceToMono fuel a = Undefined.
Proof.
  intros Hc Hs Hall Htail Hfuel.
  destruct (reduce_frames (channels a) ltac:(lia) frames [] [] tail Hall)
    as (mid' & Hmid & Hw).
  specialize (Hw (S (fuel - S (length frames)))).
  replace (length frames + S (fuel - S (length frames)))%nat with fuel in Hw by lia.
  cbn [app] in Hw. change (size []) with 0 in *. change (0 + 0) with 0 in Hw.
  rewrite while_stuck in Hw.
  - unfold reduceToMono, bind, gets. cbv beta iota.
    destruct (Z.ltb_spec (channels a) 2); [lia|]. rewrite Hs, Hw. reflexivity.
  - unfold reading. cbn [buf readAt]. apply Z.ltb_lt. rewrite !size_app.
    unfold size at 2. rewrite length_map. lia.
  - unfold reduceBody. cbn [buf readAt writeAt].
    rewrite (app_assoc _ mid' tail).
    replace (0 + Z.of_nat (length frames) + size mid')
      with (size (map (frameMean (channels a)) frames ++ mid'))
      by (rewrite size_app; unfold size at 1; rewrite length_map; lia).
    rewrite sumFrame_short; [reflexivity|]. unfold size in Htail. lia.
Qed.

Lemma reduceToMono_partial_frame_witness :
  reduceToMono 2 (mkAudioData [f1; f2; f3] 2 44100 0 0) = Undefined.
Proof.
  apply (reduceToMono_partial_frame 2 (mkAudioData [f1; f2; f3] 2 44100 0 0) [[f1; f2]] [f3]).
  - now apply Z.leb_le.
  - reflexivity.
  - repeat constructor.
  - split; reflexivity.
  - apply Nat.leb_le. reflexivity.
Defined.

(** X15. [reduceToMono] never throws. When it returns, the buffer has at
    most one channel if it had at most one, and one channel otherwise; the
    frame rate and the iterators are as before. Calling it again changes
    nothing, and a [downsample] that follows does not fail for the channel
    count. *)
Theorem reduceToMono_makes_mono (fuel : nat) (a : AudioData) :
  (forall e a', reduceToMono fuel a <> Throw e a')
  /\ (forall a', reduceToMono fuel a = Ret tt a' ->
        channels a' = (if channels a <? 2 then channels a else 1)
        /\ frameRate a' = frameRate a
        /\ readIterator a' = readIterator a /\ writeIterator a' = writeIterator a
        /\ (forall fuel', reduceToMono fuel' a' = Ret tt a')
        /\ (forall fuel' factor shortcut a'',
              downsample fuel' factor shortcut a' <> Throw MonophonicOnly a'')).
Proof.
  split.
  - intros e a' H. unfold reduceToMono in H. split_in H; run_in H; discriminate H.
  - intros a' H.
    assert (Hch : channels a' = (if channels a <? 2 then channels a else 1)
                  /\ frameRate a' = frameRate a
                  /\ readIterator a' = readIterator a /\ writeIterator a' = writeIterator a).
    { unfold reduceToMono in H. split_in H; try discriminate H; run_in H;
        injection H as <-; now repeat split. }
    destruct Hch as (Hch & Hr & Hri & Hwi).
    assert (Hmono : channels a' < 2).
    { rewrite Hch. destruct (Z.ltb_spec (channels a) 2); lia. }
    split; [exact Hch|]. split; [exact Hr|]. split; [exact Hri|]. split; [exact Hwi|].
    split.
    + intros fuel'. unfold reduceToMono, bind, gets.
      now destruct (Z.ltb_spec (channels a') 2); [|lia].
    + intros fuel' factor shortcut a'' H'. unfold downsample, setFrameRate in H'.
      split_in H'; run_in H'; try discriminate H'. bools. lia.
Qed.

Lemma reduceToMono_makes_mono_witness :
  channels mono4 = (if channels stereo4 <? 2 then channels stereo4 else 1)
  /\ frameRate mono4 = frameRate stereo4
  /\ readIterator mono4 = readIterator stereo4 /\ writeIterator mono4 = writeIterator stereo4
  /\ (forall fuel', reduceToMono fuel' mono4 = Ret tt mono4)
  /\ (forall fuel' factor shortcut a'',
        downsample fuel' factor shortcut mono4 <> Throw MonophonicOnly a'').
Proof.
  destruct (reduceToMono_makes_mono 4 stereo4) as (_ & H).
  apply (H mono4). reflexivity.
Defined.

(** ** The outcome of downsample *)

(** X17. With the factor 1 [downsample] returns at once and changes
    nothing, also on a buffer with several channels. With another factor it
    refuses a buffer with more than one channel and changes nothing. When it
    throws, it is that refusal or the error of [setFrameRate] for a frame
    rate below the factor; when it returns with a factor other than 1, the
    buffer has at most one channel, the frame rate is the quotient of the
    frame rate before by the factor and is at least 1, and the channel count
    and the iterators are as before. *)
Theorem downsample_outcome (fuel : nat) (factor : Z) (shortcut : bool) (a : AudioData) :
  (factor = 1 -> downsample fuel factor shortcut a = Ret tt a)
  /\ (factor <> 1 -> 1 < channels a ->
      downsample fuel factor shortcut a = Throw MonophonicOnly a)
  /\ (forall e a', downsample fuel factor shortcut a = Throw e a' ->
        (e = MonophonicOnly /\ a' = a /\ 1 < channels a)
        \/ (e = NewFrameRateZero /\ channels a <= 1 /\ frameRate a / factor < 1))
  /\ (forall a', factor <> 1 -> downsample fuel factor shortcut a = Ret tt a' ->
        channels a <= 1 /\ channels a' = channels a
        /\ frameRate a' = frameRate a / factor /\ 1 <= frameRate a'
        /\ readIterator a' = readIterator a /\ writeIterator a' = writeIterator a).
Proof.
  split; [|split; [|split]].
  - intros ->. reflexivity.
  - intros Hf Hc. now apply downsample_monophonic_only.
  - intros e a' H. unfold downsample, setFrameRate in H.
    split_in H; run_in H; try discriminate H; injection H as <- <-; bools.
    + left. now repeat split.
    + right. match goal with Hd : UInt.div _ _ = Some _ |- _ =>
        unfold UInt.div in Hd; destruct (factor =? 0); [discriminate Hd|];
        injection Hd as <- end.
      repeat split; lia.
  - intros a' Hf H. unfold downsample, setFrameRate in H.
    split_in H; run_in H; try discriminate H; bools; [contradiction|].
    injection H as <-.
    match goal with Hd : UInt.div _ _ = Some _ |- _ =>
      unfold UInt.div in Hd; destruct (factor =? 0); [discriminate Hd|];
      injection Hd as <- end.
    cbn [channels frameRate readIterator writeIterator set_samples set_frameRate].
    repeat split; lia.
Qed.

Lemma downsample_outcome_witness :
  downsample 0 1 false stereo4 = Ret tt stereo4
  /\ downsample 4 2 true stereo4 = Throw MonophonicOnly stereo4
  /\ ((NewFrameRateZero = MonophonicOnly /\ mkAudioData [f2; f6] 1 1 0 0 = mono4_slow
       /\ 1 < channels mono4_slow)
      \/ (NewFrameRateZero = NewFrameRateZero /\ channels mono4_slow <= 1
          /\ frameRate mono4_slow / 2 < 1))
  /\ frameRate (mkAudioData [f2; f6] 1 22050 0 0) = frameRate mono4 / 2.
Proof.
  split; [|split; [|split]].
  - destruct (downsample_outcome 0 1 false stereo4) as (H & _). now apply H.
  - destruct (downsample_outcome 4 2 true stereo4) as (_ & H & _).
    apply H; [discriminate | reflexivity].
  - destruct (downsample_outcome 2 2 true mono4_slow) as (_ & _ & H & _).
    apply H. reflexivity.
  - destruct (downsample_outcome 2 2 true mono4) as (_ & _ & _ & H).
    apply (H (mkAudioData [f2; f6] 1 22050 0 0)); [discriminate | reflexivity].
Defined.

(** ** The streaming iterators *)

(** X19. The iterators reach the samples the indexed functions reach. After
    [resetIterators] and an advance by [i], with [i] below the sample count,
    the read iterator reads what [getSample i] returns; and a value written
    through the write iterator, finite or not, is what [getSample i] returns
    afterwards, the other fields being untouched. *)
Theorem iterators_reach_samples (a : AudioData) (i : Z) (value : float) :
  0 <= i < sampleCount a ->
  (exists v,
     getSample i a = Ret v a
     /\ (resetIterators >> advanceReadIterator i >> getSampleAtReadIterator) a
        = Ret v (set_readIterator i (set_writeIterator 0 (set_readIterator 0 a))))
  /\ (exists a',
       (resetIterators >> advanceWriteIterator i >> setSampleAtWriteIterator value) a
       = Ret tt a'
       /\ getSample i a' = Ret value a'
       /\ sampleCount a' = sampleCount a
       /\ channels a' = channels a /\ frameRate a' = frameRate a).
Proof.
  intros Hi. pose proof (sampleCount_le_size a) as Hle. split.
  - destruct (getSample_returns a i Hi) as (v & Hv & Hl). exists v. split; [exact Hv|].
    unfold resetIterators, advanceReadIterator, getSampleAtReadIterator,
      bind, gets, modify, defined.
    cbn [samples readIterator set_readIterator set_writeIterator].
    rewrite advance_some by lia. rewrite Z.add_0_l. unfold ret, undefined.
    cbn [samples readIterator set_readIterator set_writeIterator].
    destruct (deref_in_range (samples a) i) as (v' & -> & Hl'); [lia|].
    rewrite Hl in Hl'. now injection Hl' as <-.
  - eexists. split; [|split; [|split; [|split]]].
    + unfold resetIterators, advanceWriteIterator, setSampleAtWriteIterator,
        bind, gets, modify, defined.
      cbn [samples writeIterator set_readIterator set_writeIterator].
      rewrite advance_some by lia. rewrite Z.add_0_l. unfold ret, undefined.
      cbn [samples writeIterator set_readIterator set_writeIterator].
      rewrite store_in_range by lia. reflexivity.
    + apply getSample_lookup.
      * unfold sampleCount, size. cbn [samples set_samples set_writeIterator set_readIterator].
        rewrite length_insert. exact Hi.
      * cbn [samples set_samples]. apply list_lookup_insert_eq. unfold size in Hle. lia.
    + unfold sampleCount, size. cbn [samples set_samples set_writeIterator set_readIterator].
      now rewrite length_insert.
    + reflexivity.
    + reflexivity.
Qed.

Lemma iterators_reach_samples_witness :
  (exists v,
     getSample 2 mono4 = Ret v mono4
     /\ (resetIterators >> advanceReadIterator 2 >> getSampleAtReadIterator) mono4
        = Ret v (set_readIterator 2 (set_writeIterator 0 (set_readIterator 0 mono4))))
  /\ (exists a',
       (resetIterators >> advanceWriteIterator 2 >> setSampleAtWriteIterator S754_nan) mono4
       = Ret tt a'
       /\ getSample 2 a' = Ret S754_nan a'
       /\ sampleCount a' = sampleCount mono4
       /\ channels a' = channels mono4 /\ frameRate a' = frameRate mono4).
Proof.
  apply (iterators_reach_samples mono4 2 S754_nan).
  split; [now apply Z.leb_le | reflexivity].
Defined.

(** X20. For an iterator at or behind the start of the deque, the two
    "within upper bound" functions say exactly whether the access through
    the iterator is defined: when they return true, the read returns the
    sample at the offset and the write returns; when they return false,
    neither has a defined behaviour. They change nothing. *)
Theorem within_bound_guards_access (a : AudioData) (value : float) :
  0 <= readIterator a -> 0 <= writeIterator a ->
  (readIteratorWithinUpperBound a = Ret true a ->
     exists v, getSampleAtReadIterator a = Ret v a
               /\ samples a !! Z.to_nat (readIterator a) = Some v)
  /\ (readIteratorWithinUpperBound a = Ret false a ->
      getSampleAtReadIterator a = Undefined)
  /\ (writeIteratorWithinUpperBound a = Ret true a ->
      setSampleAtWriteIterator value a
      = Ret tt (set_samples (<[Z.to_nat (writeIterator a) := value]> (samples a)) a))
  /\ (writeIteratorWithinUpperBound a = Ret false a ->
      setSampleAtWriteIterator value a = Undefined)
  /\ (exists b, readIteratorWithinUpperBound a = Ret b a)
  /\ (exists b, writeIteratorWithinUpperBound a = Ret b a).
Proof.
  intros Hr Hw.
  unfold readIteratorWithinUpperBound, writeIteratorWithinUpperBound,
    getSampleAtReadIterator, setSampleAtWriteIterator, bind, gets, modify, defined.
  split; [|split; [|split; [|split; [|split]]]].
  - intros [= H]. apply Z.ltb_lt in H.
    destruct (deref_in_range (samples a) (readIterator a)) as (v & -> & Hl); [lia|].
    now exists v.
  - intros [= H]. apply Z.ltb_ge in H. unfold deref.
    destruct (Z.ltb_spec (readIterator a) (size (samples a))); [lia|].
    now rewrite andb_false_r.
  - intros [= H]. apply Z.ltb_lt in H. now rewrite store_in_range by lia.
  - intros [= H]. apply Z.ltb_ge in H. unfold store.
    destruct (Z.ltb_spec (writeIterator a) (size (samples a))); [lia|].
    now rewrite andb_false_r.
  - eexists. reflexivity.
  - eexists. reflexivity.
Qed.

Lemma within_bound_guards_access_witness :
  (exists v, getSampleAtReadIterator mono4 = Ret v mono4
             /\ samples mono4 !! Z.to_nat (readIterator mono4) = Some v)
  /\ getSampleAtReadIterator (set_readIterator 4 mono4) = Undefined.
Proof.
  split.
  - destruct (within_bound_guards_access mono4 f1) as (H & _); [cbn; lia | cbn; lia |].
    apply H. reflexivity.
  - destruct (within_bound_guards_access (set_readIterator 4 mono4) f1) as (_ & H & _);
      [cbn; lia | cbn; lia |].
    apply H. reflexivity.
Defined.

(** ** What downsample stores *)

Lemma deref_store_same (s s' : list float) (i : Z) (v : float) :
  store s i v = Some s' -> deref s' i = Some v.
Proof.
  unfold store, deref. destruct ((0 <=? i) && (i <? size s)) eqn:Hi; [|discriminate].
  intros [= <-]. unfold size in *. rewrite length_insert, Hi.
  apply andb_true_iff in Hi as (H0 & H1). apply Z.leb_le in H0. apply Z.ltb_lt in H1.
  apply list_lookup_insert_eq. lia.
Qed.

Lemma deref_store_other (s s' : list float) (i j : Z) (v : float) :
  store s i v = Some s' -> j <> i -> deref s' j = deref s j.
Proof.
  unfold store, deref. destruct ((0 <=? i) && (i <? size s)) eqn:Hi; [|discriminate].
  intros [= <-] Hne. unfold size in *. rewrite length_insert.
  destruct ((0 <=? j) && (j <? Z.of_nat (length s))) eqn:Hj; [|reflexivity].
  apply andb_true_iff in Hi as (H0 & _). apply Z.leb_le in H0.
  apply andb_true_iff in Hj as (H2 & _). apply Z.leb_le in H2.
  apply list_lookup_insert_ne. lia.
Qed.

Lemma deref_resize (s : list float) (k i : Z) (v : float) :
  0 <= i < k -> i < size s -> deref (resize k v s) i = deref s i.
Proof.
  intros Hi Hs. unfold deref. rewrite size_resize by lia.
  destruct (Z.leb_spec 0 i); [|lia]. destruct (Z.ltb_spec i k); [|lia].
  destruct (Z.ltb_spec i (size s)); [|lia]. cbn.
  unfold resize, size in *. rewrite lookup_app_l by (rewrite length_take; lia).
  apply lookup_take_lt. lia.
Qed.

Lemma boxcar_result (factor : Z) (s : list float) :
  forall (n : nat) (r : Z) (mean : float),
    0 <= r ->
    exists r' m, boxcar n factor s r mean = Some (r', m)
                 /\ r <= r' <= r + Z.of_nat n
                 /\ (r' = r + Z.of_nat n \/ size s <= r').
Proof.
  induction n as [|n IH]; intros r mean Hr.
  - exists r, mean. split; [reflexivity|]. lia.
  - cbn [boxcar]. destruct (Z.ltb_spec r (size s)) as [Hlt|Hge].
    + destruct (deref_in_range s r) as (v & -> & _); [lia|].
      destruct (IH (r + 1) (F32.div (F32.add mean v) (F32.of_uint factor)))
        as (r' & m & -> & Hle & Hcase); [lia|].
      exists r', m. split; [reflexivity|]. lia.
    + destruct (IH r (F32.div mean (F32.of_uint factor))) as (r' & m & -> & Hle & Hcase);
        [lia|].
      exists r', m. split; [reflexivity|]. lia.
Qed.

Lemma ceil_to_size_nonneg (x : float) (n : Z) : F32.ceil_to_size x = Some n -> 0 <= n.
Proof.
  unfold F32.ceil_to_size. destruct (F32.ceil x) as [z|]; [|discriminate].
  destruct (Z.leb_spec 0 z); cbn [andb]; [|discriminate].
  destruct (z <? 2 ^ 64); [|discriminate]. now intros [= <-].
Qed.

(** [boxcar] reads no sample before the offset it starts at. *)
Lemma boxcar_agree (factor : Z) (b s : list float) :
  size b = size s ->
  forall (n : nat) (r : Z) (mean : float),
    (forall j, r <= j -> deref b j = deref s j) ->
    boxcar n factor b r mean = boxcar n factor s r mean.
Proof.
  intros Hsize. induction n as [|n IH]; intros r mean Hsame; [reflexivity|].
  cbn [boxcar]. rewrite Hsize, (Hsame r) by lia.
  destruct (r <? size s).
  - destruct (deref s r); [|reflexivity]. apply IH. intros j Hj. apply Hsame. lia.
  - now apply IH.
Qed.

Lemma decimating_step (factor : Z) (shortcut : bool) (s : list float) (st st' : cursor) :
  1 <= factor -> decimating factor shortcut s st -> reading st = true ->
  downsampleBody factor shortcut st = Some st' -> decimating factor shortcut s st'.
Proof.
  intros Hf (Hsize & k & Hk & Hw & Hkr & Hat & Hdone & Hrest) Hread Hbody.
  unfold reading in Hread. apply Z.ltb_lt in Hread. rewrite Hsize in Hread.
  assert (Hr : readAt st = k * factor) by lia.
  assert (Hstep : exists r' m,
             (if shortcut
              then match deref (buf st) (readAt st) with
                   | Some v =>
                       match advance (buf st) (readAt st) factor with
                       | Some r => Some (r, v)
                       | None => None
                       end
                   | None => None
                   end
              else boxcar (Z.to_nat factor) factor (buf st) (readAt st) F32.zero)
             = Some (r', m)
             /\ decimated factor shortcut s k = Some m
             /\ readAt st + 1 <= r' <= (k + 1) * factor
             /\ (r' = (k + 1) * factor \/ size s <= r')).
  { destruct shortcut.
    - rewrite (Hrest (readAt st)) by lia.
      destruct (deref_in_range s (readAt st)) as (v & Hv & _); [lia|].
      rewrite Hv.
      destruct (advance (buf st) (readAt st) factor) as [r|] eqn:Hadv.
      + apply advance_inv in Hadv. exists r, v. split; [reflexivity|].
        split; [unfold decimated; now rewrite <- Hr|]. lia.
      + exfalso. unfold downsampleBody in Hbody.
        rewrite (Hrest (readAt st)) in Hbody by lia.
        rewrite Hv, Hadv in Hbody. discriminate.
    - rewrite (boxcar_agree factor (buf st) s Hsize _ _ _ Hrest).
      destruct (boxcar_result factor s (Z.to_nat factor) (readAt st) F32.zero)
        as (r' & m & Hb & Hle & Hcase); [lia|].
      destruct (boxcar_advances factor s (Z.to_nat factor) (readAt st) F32.zero)
        as (r0 & m0 & Hb0 & _ & Hadv); [lia|].
      rewrite Hb in Hb0. injection Hb0 as <- <-.
      assert (readAt st + 1 <= r') by (apply Hadv; lia).
      exists r', m. split; [exact Hb|].
      split; [unfold decimated; now rewrite <- Hr, Hb|]. lia. }
  destruct Hstep as (r' & m & Hstep & Hdec & Hr' & Hcase).
  unfold downsampleBody in Hbody. rewrite Hstep in Hbody.
  destruct (store (buf st) (writeAt st) m) as [b'|] eqn:Hstore; [|discriminate].
  injection Hbody as <-. unfold decimating. cbn [buf readAt writeAt].
  split; [rewrite <- Hsize; eapply store_size; eassumption|].
  exists (k + 1). split; [lia|]. split; [lia|]. split; [nia|]. split; [exact Hcase|].
  split.
  - intros i Hi. destruct (Z.eq_dec i k) as [->|Hne].
    + rewrite <- Hw at 1. rewrite (deref_store_same _ _ _ _ Hstore). now symmetry.
    + rewrite (deref_store_other _ _ _ _ _ Hstore) by lia. apply Hdone. lia.
  - intros j Hj. rewrite (deref_store_other _ _ _ _ _ Hstore) by lia. apply Hrest. lia.
Qed.

(** X16. What [downsample] returns with a factor of at least 2: for every
    place [i] of the new deque with i * factor inside the old one, the
    sample at [i] is what one iteration of the loop takes from the old
    samples at the offset i * factor. With the shortcut that is the old
    sample at i * factor. Without it, it is what the block loop makes of the
    old samples from i * factor on. *)
Theorem downsample_samples (fuel : nat) (factor : Z) (shortcut : bool) (a a' : AudioData) :
  2 <= factor -> downsample fuel factor shortcut a = Ret tt a' ->
  forall i, 0 <= i < size (samples a') -> i * factor < size (samples a) ->
            deref (samples a') i = decimated factor shortcut (samples a) i.
Proof.
  intros Hf H i Hi Hif.
  unfold downsample, setFrameRate, downsampleLoop in H.
  split_in H; run_in H; try discriminate H; bools; try lia. injection H as <-.
  cbn [samples set_samples set_frameRate] in *.
  match goal with
  | Hloop : while _ _ _ _ = Finished ?st |- _ =>
      apply (while_invariant (decimating factor shortcut (samples a))) in Hloop;
      [destruct Hloop as ((Hsize & k & Hk & Hw & Hkr & Hat & Hdone & Hrest) & Hend)| |]
  end.
  - unfold reading in Hend. apply Z.ltb_ge in Hend. rewrite Hsize in Hend.
    match goal with
    | Hc : F32.ceil_to_size _ = Some ?n |- _ =>
        assert (Hn : 0 <= n) by exact (ceil_to_size_nonneg _ _ Hc)
    end.
    rewrite size_resize in Hi by exact Hn.
    rewrite deref_resize; [|lia|nia].
    apply Hdone. nia.
  - intros s0 s1 Hinv Hread Hbody.
    apply (decimating_step factor shortcut (samples a) s0 s1); [lia|assumption..].
  - split; [reflexivity|]. exists 0. cbn [buf readAt writeAt].
    split; [lia|]. split; [reflexivity|]. split; [lia|]. split; [left; lia|].
    split; [intros j Hj; lia | reflexivity].
Qed.

Lemma downsample_samples_witness :
  deref [f2; f6] 1 = decimated 2 true (samples mono4) 1
  /\ deref [f2; f5] 1 = decimated 2 false (samples mono4) 1.
Proof.
  split.
  - apply (downsample_samples 2 2 true mono4 (mkAudioData [f2; f6] 1 22050 0 0));
      [now apply Z.leb_le | reflexivity | split; [now apply Z.leb_le | reflexivity]
      | reflexivity].
  - apply (downsample_samples 2 2 false mono4 (mkAudioData [f2; f5] 1 22050 0 0));
      [now apply Z.leb_le | reflexivity | split; [now apply Z.leb_le | reflexivity]
      | reflexivity].
Defined.

(** X18. What the block loop of [downsample] makes of a block. Over a block
    that lies inside the deque, one iteration for each sample, it ends
    behind the block with the running value: each sample is added and the sum
    divided by the factor at once, so that the result is not the mean of the
    block. Over a block that ends the deque, with iterations left over, it
    stops at the end and divides the running value by the factor once more
    for every iteration left. *)
Theorem boxcar_block (factor : Z) (pre block rest : list float) (mean : float)
    (extra : nat) :
  boxcar (length block) factor (pre ++ block ++ rest) (size pre) mean
  = Some (size pre + size block, runningMean factor block mean)
  /\ boxcar (length block + extra) factor (pre ++ block) (size pre) mean
     = Some (size pre + size block,
             Nat.iter extra (fun m => F32.div m (F32.of_uint factor))
               (runningMean factor block mean)).
Proof.
  split.
  - revert pre mean. induction block as [|x block IH]; intros pre mean.
    + cbn [length boxcar runningMean fold_left]. change (size []) with 0.
      now rewrite Z.add_0_r.
    + cbn [length boxcar app]. rewrite deref_middle.
      destruct (Z.ltb_spec (size pre) (size (pre ++ x :: block ++ rest))) as [_|Hge].
      2:{ rewrite size_app, size_cons in Hge.
          pose proof (size_nonneg (block ++ rest)). lia. }
      replace (pre ++ x :: block ++ rest) with ((pre ++ [x]) ++ block ++ rest)
        by now rewrite <- app_assoc.
      replace (size pre + 1) with (size (pre ++ [x])) by (rewrite size_app; reflexivity).
      rewrite IH. cbn [runningMean fold_left]. f_equal. f_equal.
      rewrite size_app, !size_cons. change (size []) with 0. lia.
  - revert pre mean. induction block as [|x block IH]; intros pre mean.
    + cbn [length Nat.add runningMean fold_left]. rewrite app_nil_r.
      change (size []) with 0. rewrite Z.add_0_r.
      revert mean. induction extra as [|extra IHe]; intros mean; [reflexivity|].
      cbn [boxcar]. rewrite Z.ltb_irrefl, IHe. now rewrite Nat.iter_succ_r.
    + cbn [length Nat.add boxcar app]. rewrite deref_middle.
      destruct (Z.ltb_spec (size pre) (size (pre ++ x :: block))) as [_|Hge].
      2:{ rewrite size_app, size_cons in Hge. pose proof (size_nonneg block). lia. }
      replace (pre ++ x :: block) with ((pre ++ [x]) ++ block) by now rewrite <- app_assoc.
      replace (size pre + 1) with (size (pre ++ [x])) by (rewrite size_app; reflexivity).
      rewrite IH. cbn [runningMean fold_left]. f_equal. f_equal.
      rewrite size_app, !size_cons. change (size []) with 0. lia.
Qed.

(** ** A witness for the calls that throw *)

Lemma throw_keeps_state_witness :
  mono4 = mono4
  /\ perform 0 (SetSample 9 f1) mono4 = Throw (SetSampleBounds 9 4) mono4.
Proof.
  split; [|reflexivity].
  apply (throw_keeps_state 0 (SetSample 9 f1) mono4 mono4 (SetSampleBounds 9 4)).
  - discriminate.
  - reflexivity.
Defined.

(** ** The shortcut on a sample count that is no multiple of the factor *)

(** As long as they stay inside the deque, [k] iterations with the shortcut
    move [readAt] by [k] times the factor and [writeAt] by [k]. *)
Lemma stride_iterates (factor : Z) :
  1 <= factor ->
  forall (k : nat) (st : cursor),
    0 <= writeAt st <= readAt st ->
    readAt st + Z.of_nat k * factor <= size (buf st) ->
    exists st', iterate k (downsampleBody factor true) st = Some st'
                /\ size (buf st') = size (buf st)
                /\ readAt st' = readAt st + Z.of_nat k * factor
                /\ writeAt st' = writeAt st + Z.of_nat k.
Proof.
  intros Hf. induction k as [|k IH]; intros st Hw Hin.
  - exists st. cbn [iterate]. repeat split; lia.
  - assert (Hr : reading st = true) by (unfold reading; apply Z.ltb_lt; nia).
    destruct (strideBody factor st Hw Hr) as (Hstep & _).
    destruct Hstep as (st1 & Hb & Hs & Hr1 & Hw1); [nia | lia |].
    destruct (IH st1) as (st' & Hit & Hs' & Hr' & Hw'); [lia | rewrite Hs, Hr1; nia |].
    exists st'. cbn [iterate]. rewrite Hb. split; [exact Hit|].
    split; [congruence|]. split; lia.
Qed.

(** X22. With the shortcut, a factor of at least one and a sample count that
    is no multiple of the factor, [downsample] has no defined behaviour:
    after as many iterations as the factor goes into the sample count,
    [readAt] is still before the end of the deque, and the [advance] of
    the next iteration moves it behind the end. The block loop of the other
    branch tests [readAt] before each step; the shortcut does not. *)
Theorem downsample_shortcut_overshoot (a : AudioData) (factor : Z) (fuel : nat) :
  1 <= factor -> size (samples a) mod factor <> 0 ->
  (length (samples a) <= fuel)%nat ->
  (exists st,
      iterate (Z.to_nat (size (samples a) / factor)) (downsampleBody factor true)
        (mkCursor (samples a) 0 0) = Some st
      /\ readAt st = size (samples a) / factor * factor
      /\ reading st = true
      /\ advance (buf st) (readAt st) factor = None
      /\ downsampleBody factor true st = None)
  /\ downsampleLoop fuel factor true (samples a) = Stuck
  /\ (channels a <= 1 -> downsample fuel factor true a = Undefined).
Proof.
  intros Hf Hmod Hfuel. pose proof (size_nonneg (samples a)) as H0.
  pose proof (Z.div_mod (size (samples a)) factor ltac:(lia)) as Hdiv.
  pose proof (Z.mod_pos_bound (size (samples a)) factor ltac:(lia)) as Hrem.
  pose proof (Z.div_pos (size (samples a)) factor H0 ltac:(lia)) as Hq.
  assert (Hstuck : downsampleLoop fuel factor true (samples a) = Stuck).
  { destruct (stride_loop_ends factor Hf fuel (mkCursor (samples a) 0 0)) as (_ & H).
    - cbn. lia.
    - cbn [buf readAt]. lia.
    - cbn [buf readAt]. unfold size. lia.
    - cbn [buf readAt] in H. rewrite Z.sub_0_r in H. now apply H. }
  split; [|split; [exact Hstuck|]].
  - destruct (stride_iterates factor Hf (Z.to_nat (size (samples a) / factor))
                (mkCursor (samples a) 0 0)) as (st & Hit & Hs & Hr & Hw).
    + cbn. lia.
    + cbn [buf readAt]. rewrite Z2Nat.id by lia. nia.
    + cbn [buf readAt writeAt] in Hs, Hr, Hw. rewrite Z2Nat.id in Hr, Hw by lia.
      rewrite Z.add_0_l in Hr, Hw.
      assert (Hread : reading st = true).
      { unfold reading. apply Z.ltb_lt. rewrite Hs, Hr. nia. }
      exists st. split; [exact Hit|]. split; [exact Hr|]. split; [exact Hread|].
      split.
      * apply advance_none. rewrite Hs, Hr. nia.
      * apply (strideBody factor st); [rewrite Hw, Hr; nia | exact Hread |].
        rewrite Hs, Hr. nia.
  - intros Hc.
    assert (Hne : factor <> 1) by (intros ->; now rewrite Z.mod_1_r in Hmod).
    now apply (downsample_of_loop fuel factor true a Hne Hc).
Qed.

Lemma downsample_shortcut_overshoot_witness :
  (exists st,
      iterate 1 (downsampleBody 2 true) (mkCursor (samples mono3) 0 0) = Some st
      /\ readAt st = 2
      /\ reading st = true
      /\ advance (buf st) (readAt st) 2 = None
      /\ downsampleBody 2 true st = None)
  /\ downsampleLoop 3 2 true (samples mono3) = Stuck
  /\ downsample 3 2 true mono3 = Undefined.
Proof.
  destruct (downsample_shortcut_overshoot mono3 2 3) as (Hit & Hstuck & Hcall);
    [lia | discriminate | apply Nat.leb_le; reflexivity |].
  split; [exact Hit|]. split; [exact Hstuck|]. apply Hcall. cbn. lia.
Defined.
